(** * Mirage Tank image processor: a shallow embedding of [imageProcessor]

    The development follows the three pure parts of the image service:
    [getCoverDimensions] (cover-fit geometry), the per-pixel loop of
    [generateMirageTank] (grayscale and colour compositing, dithering,
    stores into the [Uint8ClampedArray] of the result) and
    [embedSteganography] (LSB bit packing).

    Conventions of the embedding.
    - A JavaScript [number] that carries a fractional value is a rational
      [Q]; arithmetic is exact, so the rounding error of IEEE-754 doubles is
      not part of the model.  Comparisons of [Q] values use [==].  The loop
      divides by 255 or by a positive alpha only, and the cover-fit results
      assume positive sizes, so no division by zero (hence no [Infinity] or
      [NaN]) arises where the properties are stated.
    - A byte of a typed array is a [Z]; a buffer is a [list Z] read with
      [!!!] and updated with [<[ i := v ]>] (an update outside the buffer
      leaves it unchanged, as a typed array does).
    - [Math.random] is a stream of draws with a cursor that counts how many
      draws were consumed; the loop threads it explicitly.
    - Canvas drawing, image decoding and PNG encoding are outside the
      embedding: the loop starts from the two sampled buffers. *)

From Stdlib Require Import ZArith QArith Qminmax Qround Qabs Lqa Lia List String Ascii.
From stdpp Require Import list.

Local Open Scope Z_scope.

(** ** Numbers *)

Module Num.
Local Open Scope Q_scope.

(** [a > b] on numbers. *)
Definition gtb (a b : Q) : bool := negb (Qle_bool a b).

(** [Math.max(0, Math.min(255, v))], the clamp the loop applies after each
    linear mapping (written out in the two mode branches below). *)
Definition clamp255 (v : Q) : Q := Qmax 0 (Qmin 255 v).

(** Rounding to the nearest integer, a tie going to the even neighbour. *)
Definition roundHalfEven (v : Q) : Z :=
  let f := Qfloor v in
  if gtb (inject_Z f + 0.5) v then f
  else if gtb v (inject_Z f + 0.5) then (f + 1)%Z
  else if Z.even f then f else (f + 1)%Z.

(** Conversion applied by a store into a [Uint8ClampedArray]
    (ECMAScript ToUint8Clamp): values outside [0,255] go to the nearer
    bound, the others are rounded. *)
Definition toUint8Clamp (v : Q) : Z :=
  if Qle_bool v 0 then 0%Z
  else if Qle_bool 255 v then 255%Z
  else roundHalfEven v.
End Num.

(** ** Cover-fit geometry *)

(** The object returned by [getCoverDimensions]: its fields [width],
    [height], [x], [y] hold the locals [renderWidth], [renderHeight],
    [offsetX], [offsetY]. *)
Record CoverDims := {
  renderWidth : Q;
  renderHeight : Q;
  offsetX : Q;
  offsetY : Q
}.

Definition getCoverDimensions
  (imgWidth imgHeight targetWidth targetHeight : Q) : CoverDims :=
  let imgRatio := (imgWidth / imgHeight)%Q in
  let targetRatio := (targetWidth / targetHeight)%Q in
  if Num.gtb imgRatio targetRatio then
    let renderHeight := targetHeight in
    let renderWidth := (targetHeight * imgRatio)%Q in
    {| renderWidth := renderWidth; renderHeight := renderHeight;
       offsetX := ((targetWidth - renderWidth) / 2)%Q; offsetY := 0%Q |}
  else
    let renderWidth := targetWidth in
    let renderHeight := (targetWidth / imgRatio)%Q in
    {| renderWidth := renderWidth; renderHeight := renderHeight;
       offsetX := 0%Q; offsetY := ((targetHeight - renderHeight) / 2)%Q |}.


(** ** Configuration and output size *)

Record ProcessingConfig := {
  surfaceMin : Q;
  hiddenMax : Q;
  grayscale : bool;
  dithering : Q;
  steganography : string;
  width : option Z;      (* [width?: number], [None] when absent *)
  height : option Z      (* [height?: number] *)
}.

(** The two properties of an [HTMLImageElement] that the service reads. *)
Module Img.
Record t := { width : Z; height : Z }.
End Img.

(** [w || Math.min(a, b)]: the right operand is taken when [w] is falsy,
    that is absent or [0]. *)
Definition orMin (w : option Z) (a b : Z) : Z :=
  match w with
  | Some n => if n =? 0 then Z.min a b else n
  | None => Z.min a b
  end.

Definition outputWidth (config : ProcessingConfig) (surfaceImg hiddenImg : Img.t) : Z :=
  orMin (width config) (Img.width surfaceImg) (Img.width hiddenImg).

Definition outputHeight (config : ProcessingConfig) (surfaceImg hiddenImg : Img.t) : Z :=
  orMin (height config) (Img.height surfaceImg) (Img.height hiddenImg).

(** ** Randomness *)

(** [draws] is the sequence of values [Math.random] will return, [used] the
    number of calls made so far. *)
Record Rng := { draws : nat -> Q; used : nat }.

Definition random (g : Rng) : Q * Rng :=
  (draws g (used g), {| draws := draws g; used := S (used g) |}).

(** ** The per-pixel transform *)

Section Pixel.
Local Open Scope Q_scope.
Variable config : ProcessingConfig.

Definition scaleA : Q := (255 - surfaceMin config) / 255.
Definition offsetA : Q := surfaceMin config.
Definition scaleB : Q := hiddenMax config / 255.
Definition ditheringStrength : Q := dithering config * 10.

(** The six samples of one pixel: [rA gA bA] from the surface image and
    [rB gB bB] from the hidden one. *)
Record Samples := {
  rA : Q; gA : Q; bA : Q;
  rB : Q; gB : Q; bB : Q
}.

(** The dithering block: one draw per pixel, only when the strength is
    positive. *)
Definition dither (p : Samples) (g : Rng) : Samples * Rng :=
  if Num.gtb ditheringStrength 0 then
    let '(u, g') := random g in
    let noise := (u - 0.5) * ditheringStrength in
    ({| rA := rA p + noise; gA := gA p + noise; bA := bA p + noise;
        rB := rB p + noise; gB := gB p + noise; bB := bB p + noise |}, g')
  else (p, g).

(** Values of the locals of the grayscale branch: [lumA] and [lumB0] after
    the linear mapping, [lumB] after the [A >= B] clamp, then [alpha] and
    [gray]. *)
Record GrayVals := {
  lumA : Q; lumB0 : Q; lumB : Q; alpha : Q; gray : Q
}.

Definition grayscaleMode (p : Samples) : GrayVals :=
  let lumA := 0.2126 * rA p + 0.7152 * gA p + 0.0722 * bA p in
  let lumB := 0.2126 * rB p + 0.7152 * gB p + 0.0722 * bB p in
  let lumA := Qmax 0 (Qmin 255 (lumA * scaleA + offsetA)) in
  let lumB0 := Qmax 0 (Qmin 255 (lumB * scaleB)) in
  let lumB := if Num.gtb lumB0 lumA then lumA else lumB0 in
  let alpha := 255 - (lumA - lumB) in
  let gray := if Num.gtb alpha 0 then (lumB * 255) / alpha else 0 in
  {| lumA := lumA; lumB0 := lumB0; lumB := lumB; alpha := alpha; gray := gray |}.

(** Values of the locals of the colour branch: [rA' .. bB'] are the
    channels after the linear mapping and the per-channel [A >= B] clamp,
    then the three alpha candidates, [finalAlpha] and the three output
    channels. *)
Record ColorVals := {
  rA' : Q; gA' : Q; bA' : Q;
  rB' : Q; gB' : Q; bB' : Q;
  alphaR : Q; alphaG : Q; alphaB : Q;
  finalAlpha : Q;
  rOut : Q; gOut : Q; bOut : Q
}.

Definition colorMode (p : Samples) : ColorVals :=
  let rA := Qmax 0 (Qmin 255 (rA p * scaleA + offsetA)) in
  let gA := Qmax 0 (Qmin 255 (gA p * scaleA + offsetA)) in
  let bA := Qmax 0 (Qmin 255 (bA p * scaleA + offsetA)) in
  let rB := Qmax 0 (Qmin 255 (rB p * scaleB)) in
  let gB := Qmax 0 (Qmin 255 (gB p * scaleB)) in
  let bB := Qmax 0 (Qmin 255 (bB p * scaleB)) in
  let rB := if Num.gtb rB rA then rA else rB in
  let gB := if Num.gtb gB gA then gA else gB in
  let bB := if Num.gtb bB bA then bA else bB in
  let alphaR := 255 - (rA - rB) in
  let alphaG := 255 - (gA - gB) in
  let alphaB := 255 - (bA - bB) in
  let finalAlpha := Qmax alphaR (Qmax alphaG alphaB) in
  let '(rOut, gOut, bOut) :=
    if Num.gtb finalAlpha 0
    then ((rB * 255) / finalAlpha, (gB * 255) / finalAlpha, (bB * 255) / finalAlpha)
    else (0, 0, 0) in
  {| rA' := rA; gA' := gA; bA' := bA; rB' := rB; gB' := gB; bB' := bB;
     alphaR := alphaR; alphaG := alphaG; alphaB := alphaB;
     finalAlpha := finalAlpha;
     rOut := rOut; gOut := gOut; bOut := bOut |}.

(** The four numbers assigned to [resultData.data[i .. i+3]]. *)
Definition pixelValues (p : Samples) : Q * Q * Q * Q :=
  if grayscale config then
    let v := grayscaleMode p in (gray v, gray v, gray v, alpha v)
  else
    let v := colorMode p in (rOut v, gOut v, bOut v, finalAlpha v).

(** ** The pixel loop *)

(** The reads [surfaceData.data[i .. i+2]] and [hiddenData.data[i .. i+2]].
    Both buffers have as many bytes as [resultData], so the reads of the
    loop stay inside them. *)
Definition sample (surfaceData hiddenData : list Z) (i : nat) : Samples :=
  {| rA := inject_Z (surfaceData !!! i);
     gA := inject_Z (surfaceData !!! (i + 1)%nat);
     bA := inject_Z (surfaceData !!! (i + 2)%nat);
     rB := inject_Z (hiddenData !!! i);
     gB := inject_Z (hiddenData !!! (i + 1)%nat);
     bB := inject_Z (hiddenData !!! (i + 2)%nat) |}.

(** The four stores of one iteration. *)
Definition store (resultData : list Z) (i : nat) (v : Q * Q * Q * Q) : list Z :=
  let '(c0, c1, c2, c3) := v in
  <[(i + 3)%nat := Num.toUint8Clamp c3]>
    (<[(i + 2)%nat := Num.toUint8Clamp c2]>
       (<[(i + 1)%nat := Num.toUint8Clamp c1]>
          (<[i := Num.toUint8Clamp c0]> resultData))).

(** One iteration of [for (let i = 0; i < resultData.data.length; i += 4)]. *)
Definition pixelStep (surfaceData hiddenData : list Z) (i : nat)
  (st : list Z * Rng) : list Z * Rng :=
  let '(resultData, g) := st in
  let '(p, g') := dither (sample surfaceData hiddenData i) g in
  (store resultData i (pixelValues p), g').

(** [n] iterations starting at index [i]. *)
Fixpoint pixelLoop (surfaceData hiddenData : list Z) (n i : nat)
  (st : list Z * Rng) : list Z * Rng :=
  match n with
  | O => st
  | S n' => pixelLoop surfaceData hiddenData n' (i + 4)
              (pixelStep surfaceData hiddenData i st)
  end.

(** Steps 4 and the loop of [generateMirageTank]: [createImageData] gives
    [4 * width * height] zero bytes, and the loop runs once per pixel.  The
    sampled buffers come from [getImageData(0, 0, width, height)] and have
    the same size. *)
Definition composite (width height : nat) (surfaceData hiddenData : list Z)
  (g : Rng) : list Z * Rng :=
  pixelLoop surfaceData hiddenData (width * height) 0
    (replicate (4 * (width * height)) 0%Z, g).
End Pixel.

(** ** Steganography *)

(** [TextEncoder.encode]: the text is held as its UTF-8 byte string, and the
    result is the list of its byte values. *)
Definition encode (text : string) : list Z :=
  map (fun c => Z.of_N (N_of_ascii c)) (list_ascii_of_string text).

(** The buffer and the [bitCursor] captured by the [writeBit] closure. *)
Module Carrier.
Record t := { data : list Z; bitCursor : nat }.
End Carrier.

Section Embed.
(** [totalCapacityBits = data.length / 4 * 3], a number. *)
Variable totalCapacityBits : Q.

Definition writeBit (s : Carrier.t) (bit : Z) : Carrier.t :=
  if Qle_bool totalCapacityBits (inject_Z (Z.of_nat (Carrier.bitCursor s))) then s
  else
    let pixelIndex := (Carrier.bitCursor s / 3)%nat in
    let channelOffset := (Carrier.bitCursor s mod 3)%nat in
    let dataIndex := (pixelIndex * 4 + channelOffset)%nat in
    {| Carrier.data := <[dataIndex :=
                   Z.lor (Z.land (Carrier.data s !!! dataIndex) 0xFE) (Z.land bit 1)]>
               (Carrier.data s);
       Carrier.bitCursor := S (Carrier.bitCursor s) |}.

(** [for (let i = 0; i < 32; i++) writeBit((length >> i) & 1)].  For
    [i < 32] the 32-bit shift yields bit [i] of [length]. *)
Definition writeLength (length : Z) (s : Carrier.t) : Carrier.t :=
  fold_left (fun s i => writeBit s (Z.land (Z.shiftr length (Z.of_nat i)) 1))
    (seq 0 32) s.

(** [for (let j = 0; j < 8; j++) writeBit((byte >> j) & 1)]. *)
Definition writeByte (s : Carrier.t) (byte : Z) : Carrier.t :=
  fold_left (fun s j => writeBit s (Z.land (Z.shiftr byte (Z.of_nat j)) 1))
    (seq 0 8) s.
End Embed.

Definition embedSteganography (data : list Z) (text : string) : list Z :=
  match text with
  | EmptyString => data
  | _ =>
    let bytes := encode text in
    let length := Z.of_nat (List.length bytes) in
    let totalPixels := (inject_Z (Z.of_nat (List.length data)) / 4)%Q in
    let totalCapacityBits := (totalPixels * 3)%Q in
    let s := {| Carrier.data := data; Carrier.bitCursor := 0 |} in
    let s := writeLength totalCapacityBits length s in
    let s := fold_left (writeByte totalCapacityBits) bytes s in
    Carrier.data s
  end.

(** Steps 4 to 5 of [generateMirageTank] on the sampled buffers. *)
Definition generateMirageTank (config : ProcessingConfig) (width height : nat)
  (surfaceData hiddenData : list Z) (g : Rng) : list Z * Rng :=
  let '(resultData, g') := composite config width height surfaceData hiddenData g in
  match steganography config with
  | EmptyString => (resultData, g')
  | text => (embedSteganography resultData text, g')
  end.

(** Index of the byte that carries bit [i]: channel [i mod 3] of pixel
    [i / 3], the [dataIndex] of [writeBit]. *)
Definition carrierIndex (i : nat) : nat := (i / 3 * 4 + i mod 3)%nat.

(** Modelled from the spec: the symmetric extraction of section 4.4 (the
    repository has no decoder).  Bit [i] is read from the least significant
    bit of its carrier. *)
Definition readBit (data : list Z) (i : nat) : Z :=
  Z.land (data !!! carrierIndex i) 1.

(** Modelled from the spec: [n] bits from bit [start] on, low bit first, as
    a number. *)
Fixpoint readBits (data : list Z) (start n : nat) : Z :=
  match n with
  | O => 0
  | S n' => readBit data start + 2 * readBits data (S start) n'
  end.

(** Modelled from the spec: 32 bits give the length, then each group of 8
    bits one byte. *)
Definition extract (data : list Z) : Z * list Z :=
  let length := readBits data 0 32 in
  (length,
   map (fun k => readBits data (32 + 8 * k) 8) (seq 0 (Z.to_nat length))).

(** ** Geometry of the two draws *)



(** ** The warning of the control panel *)

(** The condition [config.surfaceMin < config.hiddenMax] under which
    [Controls] shows "Surface Lightness < Hidden Darkness. Artifacts will
    occur." *)
Definition showWarning (config : ProcessingConfig) : bool :=
  Num.gtb (hiddenMax config) (surfaceMin config).

(** ** Notions used to state the properties *)

(** All six samples of a pixel are in the range of a byte, as they are when
    read from the two buffers without dithering. *)
Definition byteSamples (p : Samples) : Prop :=
  (0 <= rA p <= 255 /\ 0 <= gA p <= 255 /\ 0 <= bA p <= 255 /\
   0 <= rB p <= 255 /\ 0 <= gB p <= 255 /\ 0 <= bB p <= 255)%Q.

(** The configuration with another payload. *)
Definition withText (config : ProcessingConfig) (text : string) : ProcessingConfig :=
  {| surfaceMin := surfaceMin config; hiddenMax := hiddenMax config;
     grayscale := grayscale config; dithering := dithering config;
     steganography := text; width := width config; height := height config |}.

(** The bit that byte [j] of the buffer receives when [bits] are written
    from bit 0 on: the bit of index [j / 4 * 3 + j mod 4] when [j] is a
    colour byte and that bit exists and fits, none otherwise. *)
Definition carried (data bits : list Z) (j : nat) : option Z :=
  let i := (j / 4 * 3 + j mod 4)%nat in
  if ((j mod 4 <? 3) && (4 * i <? 3 * List.length data))%nat
  then bits !! i else None.

(** The byte stored by [writeBit] over [x] for the bit [b]. *)
Definition withLowBit (b x : Z) : Z := Z.lor (Z.land x 0xFE) (Z.land b 1).

(** Every element of a buffer is a byte. *)
Definition bytes (data : list Z) : Prop := Forall (fun b => 0 <= b <= 255) data.

(** Component [c] (0 to 3) of the four values assigned to one pixel. *)
Definition chan (c : nat) (v : Q * Q * Q * Q) : Q :=
  let '(c0, c1, c2, c3) := v in
  match c with
  | 0%nat => c0
  | 1%nat => c1
  | 2%nat => c2
  | _ => c3
  end.

(** State of the random source when the loop reaches pixel [k]: one draw
    per earlier pixel when dithering is on, none otherwise. *)
Definition rngAt (config : ProcessingConfig) (g : Rng) (k : nat) : Rng :=
  if Num.gtb (ditheringStrength config) 0
  then {| draws := draws g; used := (used g + k)%nat |}
  else g.


(** The [n] low bits of [x], low bit first, as the two loops of the encoder
    produce them. *)
Definition bitsOf (n : nat) (x : Z) : list Z :=
  map (fun i => Z.land (Z.shiftr x (Z.of_nat i)) 1) (seq 0 n).

(** The bits the encoder emits for a text, in order: the 32-bit length
    header, then the bytes. *)
Definition bitStream (text : string) : list Z :=
  bitsOf 32 (Z.of_nat (List.length (encode text)))
  ++ concat (map (bitsOf 8) (encode text)).

(** Successive calls of [writeBit]. *)
Definition writeBits (totalCapacityBits : Q) (s : Carrier.t) (bits : list Z)
  : Carrier.t :=
  fold_left (writeBit totalCapacityBits) bits s.

(** Bit [i] is within the capacity [data.length / 4 * 3] of the buffer. *)
Definition fits (data : list Z) (i : nat) : Prop :=
  (4 * i < 3 * List.length data)%nat.


(** A random source whose draws are all [d]. *)
Definition constRng (d : Q) : Rng := {| draws := fun _ => d; used := 0 |}.

(** The configuration with the given bounds and mode, no dithering, no
    payload and no explicit size. *)
Definition plainConfig (sMin hMax : Q) (gs : bool) : ProcessingConfig :=
  {| surfaceMin := sMin; hiddenMax := hMax; grayscale := gs; dithering := 0;
     steganography := EmptyString; width := None; height := None |}.

(** The product defaults of the application (dithering aside). *)
Definition defaultGray : ProcessingConfig := plainConfig 160 100 true.

(** One opaque pixel of a uniform colour. *)
Definition solid (v : Z) : list Z := [v; v; v; 255].

(** * Properties *)

(** ** Facts about numbers *)

Module NumFacts.
Import Num.
Local Open Scope Q_scope.

Lemma gtb_true a b : gtb a b = true <-> b < a.
Proof.
  unfold gtb. rewrite negb_true_iff, <- not_true_iff_false, Qle_bool_iff.
  split; [apply Qnot_le_lt | apply Qlt_not_le].
Qed.

Lemma gtb_false a b : gtb a b = false <-> a <= b.
Proof. unfold gtb. rewrite negb_false_iff. apply Qle_bool_iff. Qed.

Lemma gtb_spec a b : reflect (b < a) (gtb a b).
Proof.
  destruct (gtb a b) eqn:E; constructor.
  - now apply gtb_true.
  - apply gtb_false in E. now apply Qle_not_lt.
Qed.

Lemma clamp255_range v : 0 <= clamp255 v <= 255.
Proof.
  unfold clamp255.
  destruct (Q.max_spec 0 (Qmin 255 v)) as [[? ->] | [? ->]],
           (Q.min_spec 255 v) as [[? E] | [? E]];
    rewrite ?E in *; lra.
Qed.

Lemma clamp255_id v : 0 <= v <= 255 -> clamp255 v == v.
Proof.
  intros [? ?]. unfold clamp255.
  destruct (Q.max_spec 0 (Qmin 255 v)) as [[? ->] | [? ->]],
           (Q.min_spec 255 v) as [[? E] | [? E]];
    rewrite ?E in *; lra.
Qed.
End NumFacts.

(** ** Cover-fit *)

Section CoverFit.
Local Open Scope Q_scope.
Variables imgWidth imgHeight targetWidth targetHeight : Q.
Hypothesis imgWidth_pos : 0 < imgWidth.
Hypothesis imgHeight_pos : 0 < imgHeight.
Hypothesis targetWidth_pos : 0 < targetWidth.
Hypothesis targetHeight_pos : 0 < targetHeight.

Let d := getCoverDimensions imgWidth imgHeight targetWidth targetHeight.




End CoverFit.





(** ** Output size *)

(** C9.  An absent width (height) gives the smaller of the two source
    widths (heights), and so does an explicit [0]. *)
Theorem output_size_fallback
  (sMin hMax : Q) (gs : bool) (dth : Q) (text : string)
  (w h : option Z) (surfaceImg hiddenImg : Img.t) :
  let cfg w h := {| surfaceMin := sMin; hiddenMax := hMax; grayscale := gs;
                    dithering := dth; steganography := text;
                    width := w; height := h |} in
  outputWidth (cfg None h) surfaceImg hiddenImg
    = Z.min (Img.width surfaceImg) (Img.width hiddenImg) /\
  outputWidth (cfg (Some 0) h) surfaceImg hiddenImg
    = Z.min (Img.width surfaceImg) (Img.width hiddenImg) /\
  outputHeight (cfg w None) surfaceImg hiddenImg
    = Z.min (Img.height surfaceImg) (Img.height hiddenImg) /\
  outputHeight (cfg w (Some 0)) surfaceImg hiddenImg
    = Z.min (Img.height surfaceImg) (Img.height hiddenImg).
Proof. repeat split. Qed.

(** ** The per-pixel transform *)

Section PixelFacts.
Import Num NumFacts.
Local Open Scope Q_scope.
Variable config : ProcessingConfig.

(** The [A >= B] clamp, on two values already mapped into [0,255]. *)
Lemma dominate_bounds (a b0 : Q) :
  0 <= a <= 255 -> 0 <= b0 <= 255 ->
  let b := if gtb b0 a then a else b0 in
  0 <= b /\ b <= a /\ b <= b0 /\ b <= 255 - (a - b) /\ 0 <= 255 - (a - b) <= 255.
Proof.
  intros [? ?] [? ?]. cbv zeta.
  destruct (gtb_spec b0 a); repeat split; lra.
Qed.

(** [alpha > 0 ? (b * 255) / alpha : 0] stays in range whenever [b] does
    not exceed [alpha]. *)
Lemma quotient_bounds (b al : Q) :
  0 <= b <= al ->
  0 <= (if gtb al 0 then (b * 255) / al else 0) <= 255.
Proof.
  intros [? ?]. destruct (gtb_spec al 0); [| lra].
  split.
  - apply Qle_shift_div_l; lra.
  - apply Qle_shift_div_r; lra.
Qed.

Lemma gray_facts (p : Samples) :
  let v := grayscaleMode config p in
  0 <= lumA v <= 255 /\ 0 <= lumB0 v <= 255 /\
  0 <= lumB v /\ lumB v <= lumA v /\ lumB v <= lumB0 v /\
  lumB v <= alpha v /\
  0 <= alpha v <= 255 /\ 0 <= gray v <= 255.
Proof.
  cbv zeta. unfold grayscaleMode. cbn [lumA lumB0 lumB alpha gray].
  set (a := Qmax 0 (Qmin 255 _)).
  set (b0 := Qmax 0 (Qmin 255 _)).
  pose proof (clamp255_range
    ((0.2126 * rA p + 0.7152 * gA p + 0.0722 * bA p) * scaleA config
     + offsetA config)) as Ha.
  pose proof (clamp255_range
    ((0.2126 * rB p + 0.7152 * gB p + 0.0722 * bB p) * scaleB config)) as Hb.
  fold a in Ha. fold b0 in Hb.
  destruct (dominate_bounds a b0 Ha Hb) as (H1 & H2 & H3 & H4 & H5).
  set (b := if gtb b0 a then a else b0) in *.
  pose proof (quotient_bounds b (255 - (a - b)) (conj H1 H4)).
  repeat split; tauto || lra.
Qed.
End PixelFacts.

Section ColorFacts.
Import Num NumFacts.
Local Open Scope Q_scope.
Variable config : ProcessingConfig.

Lemma max3_bounds (x y z lo hi : Q) :
  lo <= x <= hi -> lo <= y <= hi -> lo <= z <= hi ->
  x <= Qmax x (Qmax y z) /\ y <= Qmax x (Qmax y z) /\ z <= Qmax x (Qmax y z) /\
  lo <= Qmax x (Qmax y z) <= hi.
Proof.
  intros Hx Hy Hz.
  destruct (Q.max_spec y z) as [[? E1] | [? E1]],
           (Q.max_spec x (Qmax y z)) as [[? E2] | [? E2]];
    rewrite E2; rewrite ?E1 in *; repeat split; lra.
Qed.


Lemma color_facts (p : Samples) :
  let v := colorMode config p in
  (0 <= rB' v <= rA' v /\ rA' v <= 255) /\
  (0 <= gB' v <= gA' v /\ gA' v <= 255) /\
  (0 <= bB' v <= bA' v /\ bA' v <= 255) /\
  (alphaR v = 255 - (rA' v - rB' v) /\
   alphaG v = 255 - (gA' v - gB' v) /\
   alphaB v = 255 - (bA' v - bB' v)) /\
  finalAlpha v = Qmax (alphaR v) (Qmax (alphaG v) (alphaB v)) /\
  (rB' v <= finalAlpha v /\ gB' v <= finalAlpha v /\ bB' v <= finalAlpha v) /\
  0 <= finalAlpha v <= 255.
Proof.
  cbv zeta. unfold colorMode.
  destruct (gtb (Qmax _ _) 0); cbn;
  (set (a1 := Qmax 0 (Qmin 255 (rA p * _ + _)));
   set (a2 := Qmax 0 (Qmin 255 (gA p * _ + _)));
   set (a3 := Qmax 0 (Qmin 255 (bA p * _ + _)));
   set (b1 := Qmax 0 (Qmin 255 (rB p * _)));
   set (b2 := Qmax 0 (Qmin 255 (gB p * _)));
   set (b3 := Qmax 0 (Qmin 255 (bB p * _)));
   pose proof (clamp255_range (rA p * scaleA config + offsetA config)) as Ha1;
   pose proof (clamp255_range (gA p * scaleA config + offsetA config)) as Ha2;
   pose proof (clamp255_range (bA p * scaleA config + offsetA config)) as Ha3;
   pose proof (clamp255_range (rB p * scaleB config)) as Hb1;
   pose proof (clamp255_range (gB p * scaleB config)) as Hb2;
   pose proof (clamp255_range (bB p * scaleB config)) as Hb3;
   fold a1 in Ha1; fold a2 in Ha2; fold a3 in Ha3;
   fold b1 in Hb1; fold b2 in Hb2; fold b3 in Hb3;
   destruct (dominate_bounds a1 b1 Ha1 Hb1) as (? & ? & ? & ? & ?);
   destruct (dominate_bounds a2 b2 Ha2 Hb2) as (? & ? & ? & ? & ?);
   destruct (dominate_bounds a3 b3 Ha3 Hb3) as (? & ? & ? & ? & ?);
   set (c1 := if gtb b1 a1 then a1 else b1) in *;
   set (c2 := if gtb b2 a2 then a2 else b2) in *;
   set (c3 := if gtb b3 a3 then a3 else b3) in *;
   destruct (max3_bounds (255 - (a1 - c1)) (255 - (a2 - c2)) (255 - (a3 - c3)) 0 255)
     as (? & ? & ? & ? & ?); [lra | lra | lra |];
   repeat split; try reflexivity; lra).
Qed.
End ColorFacts.



(** ** Stores into the clamped byte array *)

Section StoreFacts.
Import Num NumFacts.
Local Open Scope Q_scope.

Lemma floor_bounds (v : Q) : inject_Z (Qfloor v) <= v < inject_Z (Qfloor v) + 1.
Proof.
  split; [apply Qfloor_le |].
  pose proof (Qlt_floor v) as H. rewrite inject_Z_plus in H. exact H.
Qed.

Lemma roundHalfEven_cases (v : Q) :
  roundHalfEven v = Qfloor v /\ v <= inject_Z (Qfloor v) + 0.5 \/
  roundHalfEven v = (Qfloor v + 1)%Z /\ inject_Z (Qfloor v) + 0.5 <= v.
Proof.
  unfold roundHalfEven. cbv zeta.
  destruct (gtb_spec (inject_Z (Qfloor v) + 0.5) v) as [H1 | H1]; [left; split; [reflexivity | lra] |].
  destruct (gtb_spec v (inject_Z (Qfloor v) + 0.5)) as [H2 | H2]; [right; split; [reflexivity | lra] |].
  destruct (Z.even (Qfloor v)); [left | right]; split; reflexivity || lra.
Qed.


Lemma roundHalfEven_range (v : Q) :
  0 <= v <= 255 -> (0 <= roundHalfEven v <= 255)%Z.
Proof.
  intros [H0 H255].
  pose proof (floor_bounds v) as [Hlo Hhi].
  assert (Hf0 : (0 <= Qfloor v)%Z).
  { assert (0 < Qfloor v + 1)%Z; [| lia].
    rewrite Zlt_Qlt, inject_Z_plus.
    change (inject_Z 0) with 0. change (inject_Z 1) with 1. lra. }
  assert (Hf255 : (Qfloor v <= 255)%Z).
  { rewrite Zle_Qle. change (inject_Z 255) with 255. lra. }
  destruct (roundHalfEven_cases v) as [[-> H] | [-> H]]; [lia |].
  split; [lia |].
  assert (Qfloor v < 255)%Z; [| lia].
  rewrite Zlt_Qlt. change (inject_Z 255) with 255. lra.
Qed.


Lemma toUint8Clamp_range (v : Q) : (0 <= toUint8Clamp v <= 255)%Z.
Proof.
  unfold toUint8Clamp.
  destruct (Qle_bool v 0) eqn:E0; [lia |].
  destruct (Qle_bool 255 v) eqn:E255; [lia |].
  apply roundHalfEven_range.
  apply not_true_iff_false in E0, E255.
  rewrite Qle_bool_iff in E0, E255.
  apply Qnot_le_lt in E0, E255. lra.
Qed.
End StoreFacts.

(** C2.  In grayscale mode the four values assigned to a pixel are gray
    three times and alpha; after the mappings, their clamps and the
    [A >= B] clamp, [0 <= lumB <= lumA <= 255]; alpha is
    [255 - (lumA - lumB)] and lies in [0,255] for every pixel and
    configuration, and so does the byte stored for it; when both mapped
    luminances are 200 the clamp leaves [lumB] alone, alpha is 255 and gray
    is 200. *)
Theorem grayscale_alpha_range (config : ProcessingConfig) (p : Samples) :
  grayscale config = true ->
  let v := grayscaleMode config p in
  pixelValues config p = (gray v, gray v, gray v, alpha v) /\
  lumB v = (if Num.gtb (lumB0 v) (lumA v) then lumA v else lumB0 v) /\
  (0 <= lumB v <= lumA v /\ lumA v <= 255)%Q /\
  (alpha v = 255 - (lumA v - lumB v))%Q /\
  (0 <= alpha v <= 255)%Q /\
  0 <= Num.toUint8Clamp (alpha v) <= 255 /\
  (lumA v == 200 -> lumB0 v == 200 ->
   lumB v = lumB0 v /\ alpha v == 255 /\ gray v == 200)%Q.
Proof.
  intros Hmode v.
  pose proof (gray_facts config p) as (Ha & Hb0 & Hb & Hba & _ & _ & Halr & _).
  fold v in Ha, Hb0, Hb, Hba, Halr.
  split; [unfold pixelValues; now rewrite Hmode |].
  split; [reflexivity |].
  split; [tauto |].
  split; [reflexivity |].
  split; [exact Halr |].
  split; [apply toUint8Clamp_range |].
  clear Ha Hb0 Hb Hba Halr.
  intros Ha Hb. subst v. revert Ha Hb.
  unfold grayscaleMode. cbn [lumA lumB0 lumB alpha gray].
  set (a := Qmax 0 (Qmin 255 _)). set (b0 := Qmax 0 (Qmin 255 _)).
  intros Ha Hb.
  destruct (NumFacts.gtb_spec b0 a) as [Hlt | _]; [lra |].
  assert (Hal : (255 - (a - b0) == 255)%Q) by lra.
  split; [reflexivity |]. split; [exact Hal |].
  destruct (NumFacts.gtb_spec (255 - (a - b0)) 0) as [_ | Hn]; [| lra].
  rewrite Hal, Hb. field.
Qed.

Lemma grayscale_alpha_range_witness :
  grayscale (plainConfig 0 255 true) = true /\
  (lumA (grayscaleMode (plainConfig 0 255 true) (sample (solid 200) (solid 200) 0))
     == 200)%Q /\
  (lumB0 (grayscaleMode (plainConfig 0 255 true) (sample (solid 200) (solid 200) 0))
     == 200)%Q /\
  (alpha (grayscaleMode (plainConfig 0 255 true) (sample (solid 200) (solid 200) 0))
     == 255)%Q /\
  (gray (grayscaleMode (plainConfig 0 255 true) (sample (solid 200) (solid 200) 0))
     == 200)%Q.
Proof.
  assert (Ha : (lumA (grayscaleMode (plainConfig 0 255 true)
                        (sample (solid 200) (solid 200) 0)) == 200)%Q)
    by (vm_compute; reflexivity).
  assert (Hb : (lumB0 (grayscaleMode (plainConfig 0 255 true)
                         (sample (solid 200) (solid 200) 0)) == 200)%Q)
    by (vm_compute; reflexivity).
  split; [reflexivity |]. split; [exact Ha |]. split; [exact Hb |].
  apply (grayscale_alpha_range (plainConfig 0 255 true)
           (sample (solid 200) (solid 200) 0) eq_refl); assumption.
Defined.



(** C8.  Defaults [surfaceMin = 160], [hiddenMax = 100], grayscale, no
    dithering, both sources solid gray 128: no draw is made, the clamp is
    not triggered, and before the stores [lumA = 128*(95/255)+160],
    [lumB = 128*(100/255)], [alpha = 255-(lumA-lumB)] and
    [gray = lumB*255/alpha]; these are 207.7, 50.2, 97.5 and 131.2 to within
    one unit of the last digit (gray lies between 131.26 and 131.27). *)
Theorem default_gray_chain (g : Rng) :
  let r := dither defaultGray (sample (solid 128) (solid 128) 0) g in
  let v := grayscaleMode defaultGray (fst r) in
  snd r = g /\
  (lumA v == 128 * (95 / 255) + 160)%Q /\
  (lumB0 v == 128 * (100 / 255))%Q /\
  lumB v = lumB0 v /\
  (alpha v == 255 - (lumA v - lumB v))%Q /\
  (gray v == lumB v * 255 / alpha v)%Q /\
  (Qabs (lumA v - 207.7) < 0.1)%Q /\
  (Qabs (lumB v - 50.2) < 0.1)%Q /\
  (Qabs (alpha v - 97.5) < 0.1)%Q /\
  (Qabs (gray v - 131.2) < 0.1)%Q /\
  (131.26 < gray v < 131.27)%Q.
Proof.
  cbv zeta.
  change (dither defaultGray (sample (solid 128) (solid 128) 0) g)
    with (sample (solid 128) (solid 128) 0, g).
  cbn [fst snd].
  repeat split; vm_compute; reflexivity.
Qed.

(** ** The pixel loop *)

Section LoopFacts.
Local Open Scope nat_scope.
Variable config : ProcessingConfig.
Variables surfaceData hiddenData : list Z.

Lemma rngAt_0 (g : Rng) : rngAt config g 0 = g.
Proof.
  unfold rngAt. destruct (Num.gtb _ _); [| reflexivity].
  destruct g as [d u]. cbn. f_equal. lia.
Qed.

Lemma rngAt_step (g : Rng) (p : Samples) (m : nat) :
  rngAt config (snd (dither config p g)) m = rngAt config g (S m).
Proof.
  unfold rngAt, dither.
  destruct (Num.gtb (ditheringStrength config) 0); [| reflexivity].
  cbn. f_equal. lia.
Qed.

(** Only the next draw of the source matters to [dither]. *)
Lemma dither_draw (g g' : Rng) (p : Samples) :
  draws g (used g) = draws g' (used g') ->
  fst (dither config p g) = fst (dither config p g').
Proof.
  intros E. unfold dither.
  destruct (Num.gtb (ditheringStrength config) 0); [| reflexivity].
  cbn. now rewrite E.
Qed.

Lemma store_length (out : list Z) (i : nat) (v : Q * Q * Q * Q) :
  length (store out i v) = length out.
Proof.
  destruct v as [[[c0 c1] c2] c3]. unfold store.
  now rewrite !length_insert.
Qed.

Lemma store_other (out : list Z) (i j : nat) (v : Q * Q * Q * Q) :
  j < i \/ i + 4 <= j -> store out i v !! j = out !! j.
Proof.
  intros Hj. destruct v as [[[c0 c1] c2] c3]. unfold store.
  rewrite !list_lookup_insert_ne by lia. reflexivity.
Qed.

Lemma store_written (out : list Z) (i c : nat) (v : Q * Q * Q * Q) :
  c < 4 -> i + c < length out ->
  store out i v !! (i + c) = Some (Num.toUint8Clamp (chan c v)).
Proof.
  intros Hc Hlen. destruct v as [[[c0 c1] c2] c3]. unfold store, chan.
  destruct c as [| [| [| [| c]]]]; [| | | | lia].
  - rewrite !list_lookup_insert_ne by lia.
    rewrite Nat.add_0_r. apply list_lookup_insert_eq. lia.
  - rewrite !list_lookup_insert_ne by lia.
    apply list_lookup_insert_eq. rewrite length_insert. lia.
  - rewrite list_lookup_insert_ne by lia.
    apply list_lookup_insert_eq. rewrite !length_insert. lia.
  - apply list_lookup_insert_eq. rewrite !length_insert. lia.
Qed.

Lemma pixelStep_eq (i : nat) (out : list Z) (g : Rng) :
  pixelStep config surfaceData hiddenData i (out, g)
  = (store out i (pixelValues config
                    (fst (dither config (sample surfaceData hiddenData i) g))),
     snd (dither config (sample surfaceData hiddenData i) g)).
Proof.
  unfold pixelStep. now destruct (dither config _ g).
Qed.

(** What [n] iterations starting at index [i] do to the buffer and to the
    random source. *)
Lemma pixelLoop_spec (n : nat) :
  forall (i : nat) (out : list Z) (g : Rng),
    let r := pixelLoop config surfaceData hiddenData n i (out, g) in
    length (fst r) = length out /\
    snd r = rngAt config g n /\
    (forall j, j < i \/ i + 4 * n <= j -> fst r !! j = out !! j) /\
    (forall m c, m < n -> c < 4 -> i + 4 * m + c < length out ->
       fst r !! (i + 4 * m + c)
       = Some (Num.toUint8Clamp
                 (chan c (pixelValues config
                    (fst (dither config
                            (sample surfaceData hiddenData (i + 4 * m))
                            (rngAt config g m))))))).
Proof.
  induction n as [| n IH]; intros i out g; cbv zeta.
  - cbn [pixelLoop fst snd]. rewrite rngAt_0.
    repeat split; intros; lia.
  - cbn [pixelLoop]. rewrite pixelStep_eq.
    set (p := fst (dither config (sample surfaceData hiddenData i) g)).
    set (g1 := snd (dither config (sample surfaceData hiddenData i) g)).
    specialize (IH (i + 4) (store out i (pixelValues config p)) g1).
    cbv zeta in IH. destruct IH as (Hlen & Hrng & Hother & Hwritten).
    rewrite store_length in Hlen, Hwritten.
    split; [exact Hlen |].
    split; [rewrite Hrng; apply rngAt_step |].
    split.
    + intros j Hj. rewrite Hother by lia. apply store_other. lia.
    + intros [| m] c Hm Hc Hin.
      * rewrite Hother by lia.
        replace (i + 4 * 0 + c) with (i + c) by lia.
        rewrite store_written by lia.
        replace (i + 4 * 0) with i by lia. now rewrite rngAt_0.
      * replace (i + 4 * S m + c) with (i + 4 + 4 * m + c) by lia.
        rewrite Hwritten by lia.
        replace (i + 4 * S m) with (i + 4 + 4 * m) by lia.
        subst g1. now rewrite rngAt_step.
Qed.

End LoopFacts.




(** ** Determinism without dithering *)

Section NoDither.
Variable config : ProcessingConfig.
Variables surfaceData hiddenData : list Z.
Hypothesis dithering_off : (dithering config == 0)%Q.

Lemma strength_not_positive : Num.gtb (ditheringStrength config) 0 = false.
Proof using dithering_off.
  apply NumFacts.gtb_false. unfold ditheringStrength. lra.
Qed.

Lemma dither_off (p : Samples) (g : Rng) : dither config p g = (p, g).
Proof using dithering_off. unfold dither. now rewrite strength_not_positive. Qed.

Lemma pixelLoop_off (n : nat) :
  forall (i : nat) (out : list Z) (g g' : Rng),
    pixelLoop config surfaceData hiddenData n i (out, g)
    = (fst (pixelLoop config surfaceData hiddenData n i (out, g')), g).
Proof using dithering_off.
  induction n as [| n IH]; intros i out g g'; [reflexivity |].
  cbn [pixelLoop]. unfold pixelStep. rewrite !dither_off. apply IH.
Qed.
End NoDither.

(** C7.  With [dithering = 0] a run makes no call to the random source, and
    its output buffer does not depend on the source: two runs on the same
    buffers and configuration give the same bytes. *)
Theorem no_dithering_deterministic (config : ProcessingConfig) (w h : nat)
  (surfaceData hiddenData : list Z) (g1 g2 : Rng) :
  (dithering config == 0)%Q ->
  snd (generateMirageTank config w h surfaceData hiddenData g1) = g1 /\
  fst (generateMirageTank config w h surfaceData hiddenData g1)
  = fst (generateMirageTank config w h surfaceData hiddenData g2).
Proof.
  intros Hoff. unfold generateMirageTank, composite.
  rewrite (pixelLoop_off config surfaceData hiddenData Hoff _ _ _ g1 g2).
  destruct (pixelLoop config surfaceData hiddenData (w * h) 0
              (replicate (4 * (w * h)) 0, g2)) as [resultData g'].
  cbn [fst].
  destruct (steganography config); split; reflexivity.
Qed.

Lemma no_dithering_deterministic_witness :
  (dithering defaultGray == 0)%Q /\
  fst (generateMirageTank defaultGray 1 1 (solid 128) (solid 128) (constRng 0))
  = fst (generateMirageTank defaultGray 1 1 (solid 128) (solid 128) (constRng (1 # 2))).
Proof.
  assert (H : (dithering defaultGray == 0)%Q) by reflexivity.
  split; [exact H |].
  apply (no_dithering_deterministic defaultGray 1 1 (solid 128) (solid 128)
           (constRng 0) (constRng (1 # 2)) H).
Defined.

(** ** Steganography *)

Section BitFacts.
Local Open Scope Z_scope.

(** The byte written by [writeBit] carries the new bit in its lowest
    position and keeps the seven others. *)
Lemma written_low_bit (x b : Z) :
  Z.land (Z.lor (Z.land x 0xFE) (Z.land b 1)) 1 = Z.land b 1.
Proof.
  rewrite Z.land_lor_distr_l, <- !Z.land_assoc.
  change (Z.land 0xFE 1) with 0. change (Z.land 1 1) with 1.
  now rewrite Z.land_0_r, Z.lor_0_l.
Qed.

Lemma written_high_bits (x b : Z) :
  Z.land (Z.lor (Z.land x 0xFE) (Z.land b 1)) 0xFE = Z.land x 0xFE.
Proof.
  rewrite Z.land_lor_distr_l, <- !Z.land_assoc.
  change (Z.land 0xFE 0xFE) with 0xFE. change (Z.land 1 0xFE) with 0.
  now rewrite Z.land_0_r, Z.lor_0_r.
Qed.

(** It is a byte, so the clamped store writes it unchanged. *)
Lemma written_is_byte (x b : Z) :
  0 <= Z.lor (Z.land x 0xFE) (Z.land b 1) <= 255.
Proof.
  set (n := Z.lor (Z.land x 0xFE) (Z.land b 1)).
  assert (E : Z.land n (Z.ones 8) = n).
  { subst n. rewrite Z.land_lor_distr_l, <- !Z.land_assoc. reflexivity. }
  rewrite Z.land_ones in E by lia.
  pose proof (Z.mod_pos_bound n (2 ^ 8)). lia.
Qed.

Lemma bit_mod2 (x : Z) : Z.land x 1 = x mod 2.
Proof. change 1 with (Z.ones 1). apply Z.land_ones. lia. Qed.
End BitFacts.

Section EncoderFacts.
Local Open Scope nat_scope.

(** Quotient and remainder of a bit index by 3, for [lia]. *)
Ltac euclid3 i :=
  pose proof (Nat.div_mod_eq i 3);
  pose proof (Nat.mod_upper_bound i 3 ltac:(lia)).

Lemma carrierIndex_inj (i j : nat) : carrierIndex i = carrierIndex j -> i = j.
Proof. unfold carrierIndex. intros H. euclid3 i. euclid3 j. lia. Qed.

(** A carrier is never an alpha byte. *)
Lemma carrierIndex_channel (i : nat) : carrierIndex i mod 4 = i mod 3.
Proof.
  unfold carrierIndex. euclid3 i.
  rewrite Nat.add_comm, Nat.Div0.mod_add. apply Nat.mod_small. lia.
Qed.

Lemma carrierIndex_in_buffer (data : list Z) (i : nat) :
  fits data i -> carrierIndex i < length data.
Proof. unfold fits, carrierIndex. euclid3 i. lia. Qed.

(** The capacity test of [writeBit], on integers. *)
Lemma capacity_test (len c : nat) :
  Qle_bool (inject_Z (Z.of_nat len) / 4 * 3) (inject_Z (Z.of_nat c)) = true
  <-> 3 * len <= 4 * c.
Proof.
  rewrite Qle_bool_iff.
  assert (E : (inject_Z (Z.of_nat len) / 4 * 3 <= inject_Z (Z.of_nat c))%Q
              <-> (inject_Z (3 * Z.of_nat len) <= inject_Z (4 * Z.of_nat c))%Q).
  { rewrite !inject_Z_mult.
    change (inject_Z 3) with 3%Q. change (inject_Z 4) with 4%Q.
    split; intros H.
    - assert (E4 : (inject_Z (Z.of_nat len)
                    == 4 * (inject_Z (Z.of_nat len) / 4))%Q) by field.
      rewrite E4. lra.
    - assert (E4 : (inject_Z (Z.of_nat len) / 4 * 3
                    == 3 * inject_Z (Z.of_nat len) / 4)%Q) by field.
      rewrite E4. apply Qle_shift_div_r; lra. }
  rewrite E, <- Zle_Qle. lia.
Qed.

Variable len : nat.
Let cap : Q := (inject_Z (Z.of_nat len) / 4 * 3)%Q.

(** [writeBit] within capacity. *)
Lemma writeBit_fits (s : Carrier.t) (bit : Z) :
  length (Carrier.data s) = len ->
  fits (Carrier.data s) (Carrier.bitCursor s) ->
  writeBit cap s bit
  = {| Carrier.data :=
         <[carrierIndex (Carrier.bitCursor s) :=
             Z.lor (Z.land (Carrier.data s !!! carrierIndex (Carrier.bitCursor s)) 0xFE)
                   (Z.land bit 1)]> (Carrier.data s);
       Carrier.bitCursor := S (Carrier.bitCursor s) |}.
Proof.
  intros Hlen Hfit. unfold writeBit, fits in *.
  destruct (Qle_bool cap _) eqn:E; [| reflexivity].
  apply capacity_test in E. lia.
Qed.

(** [writeBit] beyond capacity does nothing. *)
Lemma writeBit_full (s : Carrier.t) (bit : Z) :
  length (Carrier.data s) = len ->
  ~ fits (Carrier.data s) (Carrier.bitCursor s) ->
  writeBit cap s bit = s.
Proof.
  intros Hlen Hfit. unfold writeBit, fits in *.
  destruct (Qle_bool cap _) eqn:E; [reflexivity |].
  apply not_true_iff_false in E. unfold cap in E. rewrite capacity_test in E. lia.
Qed.

Lemma writeBits_full (bits : list Z) (s : Carrier.t) :
  length (Carrier.data s) = len ->
  ~ fits (Carrier.data s) (Carrier.bitCursor s) ->
  writeBits cap s bits = s.
Proof.
  intros Hlen Hfit. induction bits as [| b bits IH]; [reflexivity |].
  unfold writeBits in *. cbn [fold_left]. now rewrite writeBit_full.
Qed.

(** The effect of writing a sequence of bits from the current cursor: the
    buffer keeps its length; the carrier of every bit that fits receives
    that bit in its lowest position; every other byte is unchanged. *)
Lemma writeBits_spec (bits : list Z) :
  forall s : Carrier.t,
    length (Carrier.data s) = len ->
    let s' := writeBits cap s bits in
    length (Carrier.data s') = len /\
    (forall i b, bits !! i = Some b ->
       fits (Carrier.data s) (Carrier.bitCursor s + i) ->
       Carrier.data s' !!! carrierIndex (Carrier.bitCursor s + i)
       = Z.lor (Z.land (Carrier.data s !!! carrierIndex (Carrier.bitCursor s + i)) 0xFE)
               (Z.land b 1)) /\
    (forall j,
       (forall i, i < length bits ->
          fits (Carrier.data s) (Carrier.bitCursor s + i) ->
          j <> carrierIndex (Carrier.bitCursor s + i)) ->
       Carrier.data s' !! j = Carrier.data s !! j).
Proof.
  induction bits as [| b bits IH]; intros s Hlen; cbv zeta.
  - cbn. repeat split; [assumption | intros; discriminate].
  - destruct (Nat.lt_ge_cases (4 * Carrier.bitCursor s) (3 * len)) as [Hfit | Hfull].
    + assert (Hf : fits (Carrier.data s) (Carrier.bitCursor s))
        by (unfold fits; lia).
      unfold writeBits. cbn [fold_left]. rewrite (writeBit_fits s b Hlen Hf).
      set (s1 := {| Carrier.data := _; Carrier.bitCursor := _ |}).
      assert (Hlen1 : length (Carrier.data s1) = len)
        by (subst s1; cbn; now rewrite length_insert).
      destruct (IH s1 Hlen1) as (Hl & Hw & Ho). fold (writeBits cap s1 bits).
      split; [exact Hl |]. split.
      * intros [| i] b' Hb' Hfi.
        -- cbn in Hb'. injection Hb' as <-. rewrite Nat.add_0_r.
           pose proof (carrierIndex_in_buffer _ _ Hf) as Hin.
           rewrite (list_lookup_total_alt (Carrier.data (writeBits cap s1 bits))).
           rewrite Ho.
           ++ subst s1. cbn [Carrier.data Carrier.bitCursor]. rewrite list_lookup_insert_eq by assumption.
              reflexivity.
           ++ intros i _ _ E. apply carrierIndex_inj in E.
              subst s1. cbn [Carrier.data Carrier.bitCursor] in E. lia.
        -- cbn in Hb'.
           replace (Carrier.bitCursor s + S i) with (Carrier.bitCursor s1 + i)
             by (subst s1; cbn [Carrier.data Carrier.bitCursor]; lia).
           rewrite (Hw i b' Hb').
           ++ subst s1. cbn [Carrier.data Carrier.bitCursor].
              rewrite list_lookup_total_insert_ne; [reflexivity |].
              intros E. apply carrierIndex_inj in E. lia.
           ++ subst s1. unfold fits in *. cbn [Carrier.data Carrier.bitCursor].
              rewrite length_insert. lia.
      * intros j Hj. rewrite Ho.
        -- subst s1. cbn [Carrier.data Carrier.bitCursor]. apply list_lookup_insert_ne.
           specialize (Hj 0). rewrite Nat.add_0_r in Hj.
           intros E. apply Hj; [cbn [length]; lia | assumption | now symmetry].
        -- intros i Hi Hfi. subst s1. cbn [Carrier.data Carrier.bitCursor length] in *.
           replace (S (Carrier.bitCursor s) + i) with (Carrier.bitCursor s + S i) by lia.
           apply Hj; [lia |].
           unfold fits in *. rewrite length_insert in Hfi. lia.
    + assert (Hf : ~ fits (Carrier.data s) (Carrier.bitCursor s))
        by (unfold fits; lia).
      rewrite (writeBits_full _ s Hlen Hf).
      split; [assumption |]. split; [| reflexivity].
      intros i b' _ Hfi. unfold fits in *. lia.
Qed.
End EncoderFacts.

Section StreamFacts.
Local Open Scope nat_scope.

Lemma bitsOf_length (n : nat) (x : Z) : length (bitsOf n x) = n.
Proof. unfold bitsOf. now rewrite length_map, length_seq. Qed.

Lemma bitsOf_lookup (n : nat) (x : Z) (i : nat) :
  i < n -> bitsOf n x !! i = Some (Z.land (Z.shiftr x (Z.of_nat i)) 1).
Proof.
  intros Hi. unfold bitsOf.
  change (map ?f ?l) with (f <$> l).
  now rewrite list_lookup_fmap, lookup_seq_lt.
Qed.

Lemma bytes_bits_length (bytes : list Z) :
  length (concat (map (bitsOf 8) bytes)) = 8 * length bytes.
Proof.
  induction bytes as [| b bytes IH]; [reflexivity |].
  cbn [map concat]. rewrite length_app, bitsOf_length, IH. cbn [length]. lia.
Qed.

Lemma bytes_bits_lookup (bytes : list Z) :
  forall k j b, bytes !! k = Some b -> j < 8 ->
    concat (map (bitsOf 8) bytes) !! (8 * k + j)
    = Some (Z.land (Z.shiftr b (Z.of_nat j)) 1).
Proof.
  induction bytes as [| b0 bytes IH]; intros k j b Hk Hj; [discriminate |].
  cbn [map concat]. destruct k as [| k].
  - injection Hk as ->. rewrite lookup_app_l by (rewrite bitsOf_length; lia).
    now apply bitsOf_lookup.
  - rewrite lookup_app_r by (rewrite bitsOf_length; lia).
    rewrite bitsOf_length.
    replace (8 * S k + j - 8) with (8 * k + j) by lia.
    now apply IH.
Qed.

Lemma bitStream_length (text : string) :
  length (bitStream text) = 32 + 8 * length (encode text).
Proof.
  unfold bitStream. now rewrite length_app, bitsOf_length, bytes_bits_length.
Qed.

Lemma bitStream_header (text : string) (i : nat) :
  i < 32 ->
  bitStream text !! i
  = Some (Z.land (Z.shiftr (Z.of_nat (length (encode text))) (Z.of_nat i)) 1).
Proof.
  intros Hi. unfold bitStream.
  rewrite lookup_app_l by (rewrite bitsOf_length; lia).
  now apply bitsOf_lookup.
Qed.

Lemma bitStream_payload (text : string) (k j : nat) (b : Z) :
  encode text !! k = Some b -> j < 8 ->
  bitStream text !! (32 + 8 * k + j)
  = Some (Z.land (Z.shiftr b (Z.of_nat j)) 1).
Proof.
  intros Hk Hj. unfold bitStream.
  rewrite lookup_app_r by (rewrite bitsOf_length; lia).
  rewrite bitsOf_length.
  replace (32 + 8 * k + j - 32) with (8 * k + j) by lia.
  now apply bytes_bits_lookup.
Qed.

Lemma encode_byte (text : string) (k : nat) (b : Z) :
  encode text !! k = Some b -> (0 <= b < 256)%Z.
Proof.
  unfold encode. change (map ?f ?l) with (f <$> l).
  rewrite list_lookup_fmap. destruct (_ !! k) as [c |]; [| discriminate].
  cbn. intros [= <-].
  pose proof (N_ascii_bounded c). lia.
Qed.

(** The two loops of the encoder emit [bitStream]. *)
Lemma writeLength_bits (cap : Q) (n : Z) (s : Carrier.t) :
  writeLength cap n s = writeBits cap s (bitsOf 32 n).
Proof.
  unfold writeLength, writeBits, bitsOf.
  generalize (seq 0 32). intros l. revert s.
  induction l as [| i l IH]; intros s; [reflexivity | apply IH].
Qed.

Lemma writeByte_bits (cap : Q) (s : Carrier.t) (b : Z) :
  writeByte cap s b = writeBits cap s (bitsOf 8 b).
Proof.
  unfold writeByte, writeBits, bitsOf.
  generalize (seq 0 8). intros l. revert s.
  induction l as [| i l IH]; intros s; [reflexivity | apply IH].
Qed.

Lemma writeBytes_bits (cap : Q) (bytes : list Z) :
  forall s, fold_left (writeByte cap) bytes s
            = writeBits cap s (concat (map (bitsOf 8) bytes)).
Proof.
  induction bytes as [| b bytes IH]; intros s; [reflexivity |].
  cbn [fold_left map concat]. rewrite IH, writeByte_bits.
  unfold writeBits. now rewrite fold_left_app.
Qed.

Lemma embed_bitStream (data : list Z) (text : string) :
  text <> EmptyString ->
  embedSteganography data text
  = Carrier.data
      (writeBits (inject_Z (Z.of_nat (length data)) / 4 * 3)
         {| Carrier.data := data; Carrier.bitCursor := 0 |} (bitStream text)).
Proof.
  intros Hne. unfold embedSteganography.
  destruct text as [| c text]; [contradiction |].
  cbv zeta. rewrite writeBytes_bits, writeLength_bits.
  unfold writeBits, bitStream. now rewrite fold_left_app.
Qed.
End StreamFacts.

Section EmbedFacts.
Local Open Scope nat_scope.
Variable data : list Z.
Variable text : string.
Hypothesis text_nonempty : text <> EmptyString.

Let data' := embedSteganography data text.

(** What the encoder does to the buffer, whatever its capacity. *)
Lemma embed_spec :
  length data' = length data /\
  (forall i b, bitStream text !! i = Some b -> fits data i ->
     data' !!! carrierIndex i
     = Z.lor (Z.land (data !!! carrierIndex i) 0xFE) (Z.land b 1)) /\
  (forall j,
     (forall i, i < length (bitStream text) -> fits data i -> j <> carrierIndex i) ->
     data' !! j = data !! j).
Proof using text_nonempty.
  subst data'. rewrite (embed_bitStream data text text_nonempty).
  apply (writeBits_spec (length data) (bitStream text)
           {| Carrier.data := data; Carrier.bitCursor := 0 |} eq_refl).
Qed.

Lemma embed_length : length data' = length data.
Proof using text_nonempty. apply embed_spec. Qed.

(** A bit of the stream that fits is read back from its carrier. *)
Lemma embed_readBit (i : nat) (b : Z) :
  bitStream text !! i = Some b -> fits data i ->
  readBit data' i = Z.land b 1.
Proof using text_nonempty.
  intros Hb Hfit. unfold readBit.
  destruct embed_spec as (_ & Hw & _).
  rewrite (Hw i b Hb Hfit). apply written_low_bit.
Qed.

(** The byte at index [j] carries bit [j / 4 * 3 + j mod 4] when [j] is a
    colour channel, and no bit otherwise. *)
Lemma carrierIndex_inv (i j : nat) :
  j = carrierIndex i -> i = j / 4 * 3 + j mod 4.
Proof.
  unfold carrierIndex. intros ->.
  pose proof (Nat.div_mod_eq i 3).
  pose proof (Nat.mod_upper_bound i 3 ltac:(lia)).
  rewrite (Nat.add_comm (i / 3 * 4)), Nat.Div0.mod_add, Nat.div_add by lia.
  rewrite (Nat.mod_small (i mod 3) 4), (Nat.div_small (i mod 3) 4) by lia. lia.
Qed.

Lemma embed_untouched (j : nat) :
  j mod 4 = 3 \/ ~ fits data (j / 4 * 3 + j mod 4)
  \/ length (bitStream text) <= j / 4 * 3 + j mod 4 ->
  data' !! j = data !! j.
Proof using text_nonempty.
  intros Hj. destruct embed_spec as (_ & _ & Ho). apply Ho.
  intros i Hi Hfit E.
  pose proof (carrierIndex_inv i j E) as Ei.
  destruct Hj as [Hj | [Hj | Hj]].
  - rewrite E, carrierIndex_channel in Hj.
    pose proof (Nat.mod_upper_bound i 3 ltac:(lia)). lia.
  - apply Hj. now rewrite <- Ei.
  - lia.
Qed.

(** Every byte keeps its seven high bits. *)
Lemma embed_high_bits (j : nat) :
  Z.land (data' !!! j) 0xFE = Z.land (data !!! j) 0xFE.
Proof using text_nonempty.
  set (i := j / 4 * 3 + j mod 4).
  destruct (Nat.eq_dec j (carrierIndex i)) as [E | Hne].
  - destruct (bitStream text !! i) as [b |] eqn:Hb.
    + destruct (Nat.lt_ge_cases (4 * i) (3 * length data)) as [Hfit | Hfull].
      * destruct embed_spec as (_ & Hw & _).
        rewrite E, (Hw i b Hb Hfit). apply written_high_bits.
      * rewrite !list_lookup_total_alt, embed_untouched; [reflexivity |].
        right. left. fold i. unfold fits. lia.
    + rewrite !list_lookup_total_alt, embed_untouched; [reflexivity |].
      right. right. fold i. now apply lookup_ge_None.
  - rewrite !list_lookup_total_alt. destruct embed_spec as (_ & _ & Ho).
    rewrite Ho; [reflexivity |].
    intros i' _ _ E. apply Hne. rewrite E at 1. f_equal.
    unfold i. now apply carrierIndex_inv.
Qed.
End EmbedFacts.

Section Extraction.
Local Open Scope Z_scope.

(** Reading [n] bits that are the low bits of [x], low bit first, gives
    [x] modulo [2^n]. *)
Lemma readBits_value (data : list Z) (n : nat) :
  forall (start : nat) (x : Z),
    (forall j, (j < n)%nat ->
       readBit data (start + j) = Z.land (Z.shiftr x (Z.of_nat j)) 1) ->
    readBits data start n = x mod 2 ^ Z.of_nat n.
Proof.
  induction n as [| n IH]; intros start x Hbits.
  - cbn. now rewrite Z.mod_1_r.
  - cbn [readBits].
    rewrite (IH (S start) (Z.shiftr x 1)).
    + specialize (Hbits 0%nat ltac:(lia)).
      rewrite Nat.add_0_r, Z.shiftr_0_r, bit_mod2 in Hbits. rewrite Hbits.
      rewrite Z.shiftr_div_pow2 by lia. change (2 ^ 1) with 2.
      rewrite Nat2Z.inj_succ, Z.pow_succ_r by lia.
      rewrite (Z.rem_mul_r x 2 (2 ^ Z.of_nat n)) by lia. reflexivity.
    + intros j Hj. specialize (Hbits (S j) ltac:(lia)).
      replace (S start + j)%nat with (start + S j)%nat by lia.
      rewrite Hbits, Z.shiftr_shiftr by lia.
      do 2 f_equal. lia.
Qed.

(** Round trip, for any payload that fits: the extraction returns the
    length and the bytes that were embedded. *)
Lemma extract_embed (data : list Z) (text : string) :
  text <> EmptyString ->
  (4 * (32 + 8 * length (encode text)) <= 3 * length data)%nat ->
  Z.of_nat (length (encode text)) < 2 ^ 32 ->
  extract (embedSteganography data text)
  = (Z.of_nat (length (encode text)), encode text).
Proof.
  intros Hne Hcap Hlen. unfold extract.
  assert (Hheader : readBits (embedSteganography data text) 0 32
                    = Z.of_nat (length (encode text))).
  { rewrite (readBits_value _ 32 0 (Z.of_nat (length (encode text)))).
    - apply Z.mod_small. change (Z.of_nat 32) with 32. lia.
    - intros j Hj. cbn [Nat.add].
      rewrite (embed_readBit data text Hne j _ (bitStream_header text j Hj))
        by (unfold fits; lia).
      rewrite <- Z.land_assoc. reflexivity. }
  cbv zeta. rewrite Hheader, Nat2Z.id. f_equal.
  apply list_eq. intros k.
  change (map ?f ?l) with (f <$> l). rewrite list_lookup_fmap.
  destruct (encode text !! k) as [b |] eqn:Hb.
  - pose proof (lookup_lt_Some _ _ _ Hb) as Hk.
    rewrite lookup_seq_lt by assumption. cbn [fmap option_fmap option_map Nat.add].
    f_equal.
    rewrite (readBits_value _ 8 (32 + 8 * k) b).
    + apply Z.mod_small. pose proof (encode_byte text k b Hb).
      change (2 ^ Z.of_nat 8) with 256. lia.
    + intros j Hj.
      rewrite (embed_readBit data text Hne _ _ (bitStream_payload text k j b Hb Hj))
        by (unfold fits; lia).
      rewrite <- Z.land_assoc. reflexivity.
  - pose proof (lookup_ge_None_1 _ _ Hb) as Hk.
    now rewrite lookup_seq_ge by assumption.
Qed.
End Extraction.

Lemma bitStream_bit (text : string) (i : nat) (b : Z) :
  bitStream text !! i = Some b -> Z.land b 1 = b.
Proof.
  intros Hb.
  assert (Hin : In b (bitStream text))
    by (apply list_elem_of_In, list_elem_of_lookup; eauto).
  assert (Hbits : forall n x, In b (bitsOf n x) -> Z.land b 1 = b).
  { intros n x H. unfold bitsOf in H. apply in_map_iff in H as (j & <- & _).
    now rewrite <- Z.land_assoc. }
  unfold bitStream in Hin. apply in_app_or in Hin as [H | H].
  - eapply Hbits, H.
  - apply in_concat in H as (l & Hl & Hbl).
    apply in_map_iff in Hl as (x & <- & _). eapply Hbits, Hbl.
Qed.

(** C3.  Embedding ["hi"] in a buffer of 16 or more pixels and reading the
    buffer back (32 bits low bit first for the length, then 8 bits low bit
    first per byte, bit [i] in the lowest bit of channel [i mod 3] of pixel
    [i / 3]) gives length 2 and bytes [0x68, 0x69]; the buffer keeps its
    length, every byte keeps its seven high bits, and the alpha bytes and
    all bytes from pixel 16 on are unchanged. *)
Theorem hi_round_trip (data : list Z) (totalPixels : nat) :
  length data = (4 * totalPixels)%nat -> (16 <= totalPixels)%nat ->
  extract (embedSteganography data "hi") = (2, [0x68; 0x69]) /\
  length (embedSteganography data "hi") = length data /\
  (forall j : nat,
     Z.land (embedSteganography data "hi" !!! j) 0xFE = Z.land (data !!! j) 0xFE) /\
  (forall j : nat, (j mod 4 = 3 \/ 64 <= j)%nat ->
     embedSteganography data "hi" !! j = data !! j).
Proof.
  intros Hlen Hpix.
  assert (Hne : "hi"%string <> EmptyString) by discriminate.
  split; [| split; [| split]].
  - apply (extract_embed data "hi" Hne).
    + change (length (encode "hi")) with 2%nat. lia.
    + reflexivity.
  - apply (embed_length data "hi" Hne).
  - apply (embed_high_bits data "hi" Hne).
  - intros j Hj. apply (embed_untouched data "hi" Hne).
    destruct Hj as [Hj | Hj]; [now left |].
    right. right. rewrite bitStream_length.
    change (length (encode "hi")) with 2%nat.
    pose proof (Nat.div_mod_eq j 4). lia.
Qed.

Lemma hi_round_trip_witness :
  length (replicate 64 255) = (4 * 16)%nat /\ (16 <= 16)%nat /\
  extract (embedSteganography (replicate 64 255) "hi") = (2, [0x68; 0x69]).
Proof.
  assert (H1 : length (replicate 64 255) = (4 * 16)%nat) by reflexivity.
  assert (H2 : (16 <= 16)%nat) by lia.
  split; [exact H1 |]. split; [exact H2 |].
  apply (hi_round_trip (replicate 64 255) 16 H1 H2).
Defined.

(** C6.  For a non-empty payload the encoder is a total function of the
    buffer.  When the required [32 + 8 * length] bits exceed the capacity,
    the buffer keeps its length, every bit of the stream that fits is found
    in its carrier, in order, every byte keeps its seven high bits, and the
    alpha bytes and the bytes that carry no fitting bit are unchanged: the
    bits beyond capacity are dropped.  On a buffer of one pixel the result
    is that pixel with the three low bits of the length, low bit first, in
    the lowest bits of R, G and B, and the same alpha. *)
Theorem capacity_exceeded_truncates (text : string) :
  text <> EmptyString ->
  (forall data : list Z,
     (3 * length data < 4 * (32 + 8 * length (encode text)))%nat ->
     length (embedSteganography data text) = length data /\
     (forall (i : nat) (b : Z), bitStream text !! i = Some b -> fits data i ->
        readBit (embedSteganography data text) i = b) /\
     (forall j : nat,
        Z.land (embedSteganography data text !!! j) 0xFE = Z.land (data !!! j) 0xFE) /\
     (forall j : nat,
        (j mod 4 = 3)%nat \/ ~ fits data (j / 4 * 3 + j mod 4) ->
        embedSteganography data text !! j = data !! j)) /\
  (forall r g b a : Z,
     embedSteganography [r; g; b; a] text
     = [Z.lor (Z.land r 0xFE) (Z.land (Z.of_nat (length (encode text))) 1);
        Z.lor (Z.land g 0xFE)
              (Z.land (Z.shiftr (Z.of_nat (length (encode text))) 1) 1);
        Z.lor (Z.land b 0xFE)
              (Z.land (Z.shiftr (Z.of_nat (length (encode text))) 2) 1);
        a]).
Proof.
  intros Hne. split.
  - intros data _. split; [| split; [| split]].
    + apply (embed_length data text Hne).
    + intros i b Hb Hfit.
      rewrite (embed_readBit data text Hne i b Hb Hfit).
      eapply bitStream_bit, Hb.
    + apply (embed_high_bits data text Hne).
    + intros j Hj. apply (embed_untouched data text Hne). tauto.
  - intros r g b a.
    destruct (embed_spec [r; g; b; a] text Hne) as (Hlen & Hw & _).
    pose proof (embed_untouched [r; g; b; a] text Hne 3 (or_introl eq_refl)) as H3.
    pose proof (Hw 0%nat _ (bitStream_header text 0 ltac:(lia))
                  ltac:(unfold fits; cbn; lia)) as H0.
    pose proof (Hw 1%nat _ (bitStream_header text 1 ltac:(lia))
                  ltac:(unfold fits; cbn; lia)) as H1.
    pose proof (Hw 2%nat _ (bitStream_header text 2 ltac:(lia))
                  ltac:(unfold fits; cbn; lia)) as H2.
    destruct (embedSteganography [r; g; b; a] text)
      as [| x0 [| x1 [| x2 [| x3 [| x4 l]]]]]; try discriminate Hlen.
    cbn in H0, H1, H2, H3. injection H3 as ->.
    rewrite <- !Z.land_assoc in H0, H1, H2. change (Z.land 1 1) with 1 in *.
    rewrite Z.shiftr_0_r in H0.
    now rewrite H0, H1, H2.
Qed.

Lemma capacity_exceeded_truncates_witness :
  "hi"%string <> EmptyString /\
  (3 * length [255; 255; 255; 255] < 4 * (32 + 8 * length (encode "hi")))%nat /\
  length (embedSteganography [255; 255; 255; 255] "hi") = 4%nat /\
  embedSteganography [255; 255; 255; 255] "hi" = [254; 255; 254; 255].
Proof.
  assert (Hne : "hi"%string <> EmptyString) by discriminate.
  assert (Hcap : (3 * length [255; 255; 255; 255]
                  < 4 * (32 + 8 * length (encode "hi")))%nat) by (cbn; lia).
  split; [exact Hne |]. split; [exact Hcap |]. split.
  - apply (proj1 (capacity_exceeded_truncates "hi" Hne) [255; 255; 255; 255] Hcap).
  - apply (proj2 (capacity_exceeded_truncates "hi" Hne) 255 255 255 255).
Defined.

(** ** Further facts and concrete runs *)

(** With dithering on, the loop makes exactly one draw per pixel. *)
Lemma composite_draws (config : ProcessingConfig) (w h : nat)
  (surfaceData hiddenData : list Z) (g : Rng) :
  snd (composite config w h surfaceData hiddenData g) = rngAt config g (w * h).
Proof. unfold composite. apply pixelLoop_spec. Qed.

Lemma composite_length (config : ProcessingConfig) (w h : nat)
  (surfaceData hiddenData : list Z) (g : Rng) :
  length (fst (composite config w h surfaceData hiddenData g)) = (4 * (w * h))%nat.
Proof.
  unfold composite.
  destruct (pixelLoop_spec config surfaceData hiddenData (w * h) 0
              (replicate (4 * (w * h)) 0) g) as (Hlen & _).
  now rewrite Hlen, length_replicate.
Qed.

(** An explicit non-zero size is kept. *)
Lemma orMin_explicit (n a b : Z) : n <> 0 -> orMin (Some n) a b = n.
Proof. intros Hn. unfold orMin. now destruct (Z.eqb_spec n 0). Qed.

Example cover_wide_image :
  (renderWidth (getCoverDimensions 4 3 2 2) == 8 # 3)%Q /\
  (renderHeight (getCoverDimensions 4 3 2 2) == 2)%Q /\
  (offsetX (getCoverDimensions 4 3 2 2) == - (1 # 3))%Q /\
  (offsetY (getCoverDimensions 4 3 2 2) == 0)%Q.
Proof. repeat split; vm_compute; reflexivity. Qed.

Example cover_tall_image :
  (renderWidth (getCoverDimensions 3 4 2 2) == 2)%Q /\
  (renderHeight (getCoverDimensions 3 4 2 2) == 8 # 3)%Q /\
  (offsetX (getCoverDimensions 3 4 2 2) == 0)%Q /\
  (offsetY (getCoverDimensions 3 4 2 2) == - (1 # 3))%Q.
Proof. repeat split; vm_compute; reflexivity. Qed.

Example clamped_store_values :
  map Num.toUint8Clamp [(-3)%Q; 0.4%Q; 0.5%Q; 0.6%Q; 1.5%Q; 2.5%Q; 254.5%Q; 300%Q]
  = [0; 0; 0; 1; 2; 2; 254; 255].
Proof. vm_compute. reflexivity. Qed.

(** Two pixels with dithering at strength 2 and every draw equal to 1: the
    noise is [(1 - 0.5) * 2 = 1] and two draws are made.  In the second
    pixel the hidden value 21 exceeds the surface value 11 and is clamped
    down to it, which makes the pixel opaque. *)
Example dithered_run :
  composite {| surfaceMin := 0; hiddenMax := 255; grayscale := false;
               dithering := 0.2; steganography := EmptyString;
               width := None; height := None |}
    2 1 (solid 200 ++ solid 10) (solid 100 ++ solid 20) (constRng 1)
  = ([166; 166; 166; 155; 11; 11; 11; 255],
     {| draws := draws (constRng 1); used := 2 |}).
Proof. vm_compute. reflexivity. Qed.

(** The 48 bits of ["hi"]: header bit 1 set (length 2), then [0x68] and
    [0x69] low bit first, three bits per pixel from pixel 0 to pixel 15. *)
Example embed_hi_in_zeros :
  embedSteganography (replicate 64 0) "hi"
  = [0; 1; 0; 0;  0; 0; 0; 0;  0; 0; 0; 0;  0; 0; 0; 0;
     0; 0; 0; 0;  0; 0; 0; 0;  0; 0; 0; 0;  0; 0; 0; 0;
     0; 0; 0; 0;  0; 0; 0; 0;  0; 0; 0; 0;  0; 0; 1; 0;
     0; 1; 1; 0;  0; 1; 0; 0;  0; 1; 0; 0;  1; 1; 0; 0].
Proof. vm_compute. reflexivity. Qed.

(** * Further properties of the service *)

(** ** Cover-fit: aspect ratio, centring, minimality *)

Section CoverShape.
Local Open Scope Q_scope.
Variables imgWidth imgHeight targetWidth targetHeight : Q.
Hypothesis imgWidth_pos : 0 < imgWidth.
Hypothesis imgHeight_pos : 0 < imgHeight.
Hypothesis targetWidth_pos : 0 < targetWidth.
Hypothesis targetHeight_pos : 0 < targetHeight.

Let d := getCoverDimensions imgWidth imgHeight targetWidth targetHeight.



End CoverShape.











(** ** The two reveals *)

Section Blend.
Local Open Scope Q_scope.


End Blend.



(** ** Mapped ranges and the warning of the control panel *)

Section Mapping.
Import Num NumFacts.
Local Open Scope Q_scope.
Variable config : ProcessingConfig.
Hypothesis surfaceMin_byte : 0 <= surfaceMin config <= 255.
Hypothesis hiddenMax_byte : 0 <= hiddenMax config <= 255.

Lemma scaleA_range : 0 <= scaleA config <= 1.
Proof using surfaceMin_byte.
  unfold scaleA. split.
  - apply Qle_shift_div_l; lra.
  - apply Qle_shift_div_r; lra.
Qed.

Lemma scaleB_range : 0 <= scaleB config <= 1.
Proof using hiddenMax_byte.
  unfold scaleB. split.
  - apply Qle_shift_div_l; lra.
  - apply Qle_shift_div_r; lra.
Qed.

(** The surface mapping sends [0,255] into [surfaceMin, 255]. *)
Lemma mapA_range (x : Q) :
  0 <= x <= 255 ->
  surfaceMin config <= x * scaleA config + offsetA config <= 255.
Proof using surfaceMin_byte.
  intros [H0 H255]. pose proof scaleA_range as [Hs0 Hs1].
  assert (0 <= x * scaleA config) by (apply Qmult_le_0_compat; assumption).
  assert (x * scaleA config <= 255 * scaleA config)
    by (apply Qmult_le_compat_r; assumption).
  assert (E : 255 * scaleA config == 255 - surfaceMin config)
    by (unfold scaleA; field).
  unfold offsetA. lra.
Qed.

(** The hidden mapping sends [0,255] into [0, hiddenMax]. *)
Lemma mapB_range (x : Q) :
  0 <= x <= 255 -> 0 <= x * scaleB config <= hiddenMax config.
Proof using hiddenMax_byte.
  intros [H0 H255]. pose proof scaleB_range as [Hs0 Hs1].
  assert (0 <= x * scaleB config) by (apply Qmult_le_0_compat; assumption).
  assert (x * scaleB config <= 255 * scaleB config)
    by (apply Qmult_le_compat_r; assumption).
  assert (E : 255 * scaleB config == hiddenMax config)
    by (unfold scaleB; field).
  lra.
Qed.

Lemma clampA_linear (x : Q) :
  0 <= x <= 255 ->
  Qmax 0 (Qmin 255 (x * scaleA config + offsetA config))
  == x * scaleA config + offsetA config.
Proof using surfaceMin_byte.
  intros Hx. pose proof (mapA_range x Hx).
  apply (clamp255_id (x * scaleA config + offsetA config)). lra.
Qed.

Lemma clampB_linear (x : Q) :
  0 <= x <= 255 ->
  Qmax 0 (Qmin 255 (x * scaleB config)) == x * scaleB config.
Proof using hiddenMax_byte.
  intros Hx. pose proof (mapB_range x Hx).
  apply (clamp255_id (x * scaleB config)). lra.
Qed.
End Mapping.

(** The locals of the colour branch before the [A >= B] clamp. *)
Lemma color_locals (config : ProcessingConfig) (p : Samples) :
  let v := colorMode config p in
  let cl x := Qmax 0 (Qmin 255 x) in
  (rA' v = cl (rA p * scaleA config + offsetA config)%Q /\
   gA' v = cl (gA p * scaleA config + offsetA config)%Q /\
   bA' v = cl (bA p * scaleA config + offsetA config)%Q) /\
  (rB' v = (if Num.gtb (cl (rB p * scaleB config)%Q) (rA' v)
            then rA' v else cl (rB p * scaleB config)%Q) /\
   gB' v = (if Num.gtb (cl (gB p * scaleB config)%Q) (gA' v)
            then gA' v else cl (gB p * scaleB config)%Q) /\
   bB' v = (if Num.gtb (cl (bB p * scaleB config)%Q) (bA' v)
            then bA' v else cl (bB p * scaleB config)%Q)).
Proof.
  cbv zeta. unfold colorMode.
  destruct (Num.gtb (Qmax _ _) 0); cbn; repeat split.
Qed.

(** X8.  For bounds in [0,255] and samples in the range of a byte, the clamps
    after the two linear mappings are idle: the surface values land in
    [surfaceMin, 255] and the hidden values in [0, hiddenMax], in grayscale
    and in colour mode, as the documentation of [ProcessingConfig] says. *)
Theorem mapped_ranges (config : ProcessingConfig) (p : Samples) :
  (0 <= surfaceMin config <= 255)%Q -> (0 <= hiddenMax config <= 255)%Q ->
  byteSamples p ->
  let v := grayscaleMode config p in
  let c := colorMode config p in
  (lumA v == (0.2126 * rA p + 0.7152 * gA p + 0.0722 * bA p) * scaleA config
             + offsetA config /\
   lumB0 v == (0.2126 * rB p + 0.7152 * gB p + 0.0722 * bB p) * scaleB config /\
   surfaceMin config <= lumA v <= 255 /\
   0 <= lumB0 v <= hiddenMax config)%Q /\
  (rA' c == rA p * scaleA config + offsetA config /\
   gA' c == gA p * scaleA config + offsetA config /\
   bA' c == bA p * scaleA config + offsetA config /\
   surfaceMin config <= rA' c <= 255 /\
   surfaceMin config <= gA' c <= 255 /\
   surfaceMin config <= bA' c <= 255 /\
   0 <= rB' c <= hiddenMax config /\
   0 <= gB' c <= hiddenMax config /\
   0 <= bB' c <= hiddenMax config)%Q.
Proof.
  intros Hs Hh (HrA & HgA & HbA & HrB & HgB & HbB) v c.
  assert (HlA : (0 <= 0.2126 * rA p + 0.7152 * gA p + 0.0722 * bA p <= 255)%Q) by lra.
  assert (HlB : (0 <= 0.2126 * rB p + 0.7152 * gB p + 0.0722 * bB p <= 255)%Q) by lra.
  split.
  - assert (EA := clampA_linear config Hs _ HlA).
    assert (EB := clampB_linear config Hh _ HlB).
    pose proof (mapA_range config Hs _ HlA).
    pose proof (mapB_range config Hh _ HlB).
    change (lumA v) with
      (Qmax 0 (Qmin 255 ((0.2126 * rA p + 0.7152 * gA p + 0.0722 * bA p)
                         * scaleA config + offsetA config)))%Q.
    change (lumB0 v) with
      (Qmax 0 (Qmin 255 ((0.2126 * rB p + 0.7152 * gB p + 0.0722 * bB p)
                         * scaleB config)))%Q.
    rewrite EA, EB. repeat split; try reflexivity; lra.
  - destruct (color_locals config p) as ((Er & Eg & Eb) & _).
    destruct (color_facts config p) as (Fr & Fg & Fb & _).
    fold c in Er, Eg, Eb, Fr, Fg, Fb.
    assert (Kr := clampA_linear config Hs _ HrA).
    assert (Kg := clampA_linear config Hs _ HgA).
    assert (Kb := clampA_linear config Hs _ HbA).
    rewrite <- Er in Kr. rewrite <- Eg in Kg. rewrite <- Eb in Kb.
    pose proof (mapA_range config Hs _ HrA).
    pose proof (mapA_range config Hs _ HgA).
    pose proof (mapA_range config Hs _ HbA).
    destruct (color_locals config p) as (_ & (Br & Bg & Bb)).
    fold c in Br, Bg, Bb.
    assert (Lr := clampB_linear config Hh _ HrB).
    assert (Lg := clampB_linear config Hh _ HgB).
    assert (Lb := clampB_linear config Hh _ HbB).
    pose proof (mapB_range config Hh _ HrB).
    pose proof (mapB_range config Hh _ HgB).
    pose proof (mapB_range config Hh _ HbB).
    assert (Ur : (rB' c <= hiddenMax config)%Q).
    { rewrite Br. destruct (NumFacts.gtb_spec (Qmax 0 (Qmin 255 (rB p * scaleB config))) (rA' c)); lra. }
    assert (Ug : (gB' c <= hiddenMax config)%Q).
    { rewrite Bg. destruct (NumFacts.gtb_spec (Qmax 0 (Qmin 255 (gB p * scaleB config))) (gA' c)); lra. }
    assert (Ub : (bB' c <= hiddenMax config)%Q).
    { rewrite Bb. destruct (NumFacts.gtb_spec (Qmax 0 (Qmin 255 (bB p * scaleB config))) (bA' c)); lra. }
    repeat split; try assumption; lra.
Qed.

Lemma mapped_ranges_witness :
  (0 <= surfaceMin defaultGray <= 255)%Q /\ (0 <= hiddenMax defaultGray <= 255)%Q /\
  byteSamples (sample (solid 128) (solid 128) 0) /\
  (surfaceMin defaultGray
   <= lumA (grayscaleMode defaultGray (sample (solid 128) (solid 128) 0)) <= 255)%Q.
Proof.
  assert (H1 : (0 <= surfaceMin defaultGray <= 255)%Q) by (cbn; lra).
  assert (H2 : (0 <= hiddenMax defaultGray <= 255)%Q) by (cbn; lra).
  assert (H3 : byteSamples (sample (solid 128) (solid 128) 0))
    by (repeat split; vm_compute; discriminate).
  split; [exact H1 |]. split; [exact H2 |]. split; [exact H3 |].
  apply (mapped_ranges defaultGray (sample (solid 128) (solid 128) 0) H1 H2 H3).
Defined.

(** The facts behind the mapped ranges, in the shape the next proofs use:
    each mapped value with its linear expression and its range. *)
Lemma mapped_values (config : ProcessingConfig) (p : Samples) :
  (0 <= surfaceMin config <= 255)%Q -> (0 <= hiddenMax config <= 255)%Q ->
  byteSamples p ->
  let v := grayscaleMode config p in
  let c := colorMode config p in
  let cl x := Qmax 0 (Qmin 255 x) in
  ((lumA v == (0.2126 * rA p + 0.7152 * gA p + 0.0722 * bA p) * scaleA config
              + offsetA config /\ surfaceMin config <= lumA v)%Q /\
   (lumB0 v == (0.2126 * rB p + 0.7152 * gB p + 0.0722 * bB p) * scaleB config
    /\ lumB0 v <= hiddenMax config)%Q) /\
  ((surfaceMin config <= rA' c /\ surfaceMin config <= gA' c
    /\ surfaceMin config <= bA' c)%Q /\
   (cl (rB p * scaleB config) == rB p * scaleB config
    /\ cl (rB p * scaleB config) <= hiddenMax config)%Q /\
   (cl (gB p * scaleB config) == gB p * scaleB config
    /\ cl (gB p * scaleB config) <= hiddenMax config)%Q /\
   (cl (bB p * scaleB config) == bB p * scaleB config
    /\ cl (bB p * scaleB config) <= hiddenMax config)%Q).
Proof.
  intros Hs Hh (HrA & HgA & HbA & HrB & HgB & HbB) v c cl.
  assert (HlA : (0 <= 0.2126 * rA p + 0.7152 * gA p + 0.0722 * bA p <= 255)%Q) by lra.
  assert (HlB : (0 <= 0.2126 * rB p + 0.7152 * gB p + 0.0722 * bB p <= 255)%Q) by lra.
  split.
  - assert (EA := clampA_linear config Hs _ HlA).
    assert (EB := clampB_linear config Hh _ HlB).
    pose proof (mapA_range config Hs _ HlA).
    pose proof (mapB_range config Hh _ HlB).
    change (lumA v) with
      (Qmax 0 (Qmin 255 ((0.2126 * rA p + 0.7152 * gA p + 0.0722 * bA p)
                         * scaleA config + offsetA config)))%Q.
    change (lumB0 v) with
      (Qmax 0 (Qmin 255 ((0.2126 * rB p + 0.7152 * gB p + 0.0722 * bB p)
                         * scaleB config)))%Q.
    rewrite EA, EB. repeat split; try reflexivity; lra.
  - destruct (color_locals config p) as ((Er & Eg & Eb) & _).
    fold c in Er, Eg, Eb.
    assert (Kr := clampA_linear config Hs _ HrA).
    assert (Kg := clampA_linear config Hs _ HgA).
    assert (Kb := clampA_linear config Hs _ HbA).
    rewrite <- Er in Kr. rewrite <- Eg in Kg. rewrite <- Eb in Kb.
    pose proof (mapA_range config Hs _ HrA).
    pose proof (mapA_range config Hs _ HgA).
    pose proof (mapA_range config Hs _ HbA).
    assert (Lr := clampB_linear config Hh _ HrB).
    assert (Lg := clampB_linear config Hh _ HgB).
    assert (Lb := clampB_linear config Hh _ HbB).
    pose proof (mapB_range config Hh _ HrB).
    pose proof (mapB_range config Hh _ HgB).
    pose proof (mapB_range config Hh _ HbB).
    subst cl. cbv beta.
    repeat split; try assumption; lra.
Qed.

(** X9.  The warning of the control panel is exact for undithered pixels.  When
    it is not shown ([hiddenMax <= surfaceMin]) the [A >= B] clamp is idle
    at every pixel: the hidden values are those of the linear mapping, in
    both modes.  When it is shown, a black surface pixel under a white
    hidden pixel has its hidden value cut down, in both modes. *)
Theorem warning_marks_clamping (config : ProcessingConfig) :
  (0 <= surfaceMin config <= 255)%Q -> (0 <= hiddenMax config <= 255)%Q ->
  (showWarning config = false ->
   forall p : Samples, byteSamples p ->
     lumB (grayscaleMode config p) = lumB0 (grayscaleMode config p) /\
     (rB' (colorMode config p) == rB p * scaleB config /\
      gB' (colorMode config p) == gB p * scaleB config /\
      bB' (colorMode config p) == bB p * scaleB config)%Q) /\
  (showWarning config = true ->
   exists p : Samples, byteSamples p /\
     (lumB (grayscaleMode config p) < lumB0 (grayscaleMode config p))%Q /\
     (rB' (colorMode config p) < rB p * scaleB config)%Q).
Proof.
  intros Hs Hh. split.
  - intros Hoff p Hp.
    apply NumFacts.gtb_false in Hoff.
    destruct (mapped_values config p Hs Hh Hp)
      as (((_ & HlA) & (_ & HlB)) & ((Ar & Ag & Ab) & (Er & Ur) & (Eg & Ug) & (Eb & Ub))).
    split.
    + change (lumB (grayscaleMode config p)) with
        (if Num.gtb (lumB0 (grayscaleMode config p)) (lumA (grayscaleMode config p))
         then lumA (grayscaleMode config p) else lumB0 (grayscaleMode config p)).
      destruct (NumFacts.gtb_spec (lumB0 (grayscaleMode config p))
                  (lumA (grayscaleMode config p))); [lra | reflexivity].
    + destruct (color_locals config p) as (_ & (Br & Bg & Bb)).
      rewrite Br, Bg, Bb.
      destruct (NumFacts.gtb_spec (Qmax 0 (Qmin 255 (rB p * scaleB config)))
                  (rA' (colorMode config p))),
               (NumFacts.gtb_spec (Qmax 0 (Qmin 255 (gB p * scaleB config)))
                  (gA' (colorMode config p))),
               (NumFacts.gtb_spec (Qmax 0 (Qmin 255 (bB p * scaleB config)))
                  (bA' (colorMode config p)));
        repeat split; assumption || lra.
  - intros Hon. apply NumFacts.gtb_true in Hon.
    assert (Hp : byteSamples {| rA := 0; gA := 0; bA := 0;
                                rB := 255; gB := 255; bB := 255 |})
      by (unfold byteSamples; cbn; lra).
    eexists. split; [exact Hp |].
    destruct (mapped_values config _ Hs Hh Hp)
      as (((ElA & _) & (ElB & _)) & (_ & (Er & _) & _)).
    cbn [rA gA bA rB gB bB] in ElA, ElB, Er |- *.
    assert (EA : ((0.2126 * 0 + 0.7152 * 0 + 0.0722 * 0) * scaleA config
                  + offsetA config == surfaceMin config)%Q)
      by (unfold offsetA; ring).
    assert (EB : ((0.2126 * 255 + 0.7152 * 255 + 0.0722 * 255) * scaleB config
                  == hiddenMax config)%Q)
      by (unfold scaleB; field).
    assert (EC : (255 * scaleB config == hiddenMax config)%Q)
      by (unfold scaleB; field).
    rewrite EA in ElA. rewrite EB in ElB.
    split.
    + match goal with |- (lumB ?g < _)%Q =>
        change (lumB g) with
          (if Num.gtb (lumB0 g) (lumA g) then lumA g else lumB0 g);
        destruct (NumFacts.gtb_spec (lumB0 g) (lumA g)); lra
      end.
    + match goal with |- (rB' ?g < _)%Q =>
        destruct (color_locals config
                    {| rA := 0; gA := 0; bA := 0; rB := 255; gB := 255; bB := 255 |})
          as ((Ea & _) & (Br & _))
      end.
      cbn [rA gA bA rB gB bB] in Ea, Br.
      rewrite Br.
      assert (Ka : (rA' (colorMode config
                      {| rA := 0; gA := 0; bA := 0; rB := 255; gB := 255; bB := 255 |})
                    == surfaceMin config)%Q).
      { rewrite Ea.
        assert (E0 : (0 * scaleA config + offsetA config == surfaceMin config)%Q)
          by (unfold offsetA; ring).
        rewrite E0. apply (NumFacts.clamp255_id (surfaceMin config)). lra. }
      destruct (NumFacts.gtb_spec (Qmax 0 (Qmin 255 (255 * scaleB config)))
                  (rA' (colorMode config
                      {| rA := 0; gA := 0; bA := 0; rB := 255; gB := 255; bB := 255 |})));
        lra.
Qed.

Lemma warning_marks_clamping_witness :
  (0 <= surfaceMin defaultGray <= 255)%Q /\ (0 <= hiddenMax defaultGray <= 255)%Q /\
  showWarning defaultGray = false /\
  showWarning (plainConfig 100 160 true) = true /\
  lumB (grayscaleMode defaultGray (sample (solid 128) (solid 128) 0))
  = lumB0 (grayscaleMode defaultGray (sample (solid 128) (solid 128) 0)).
Proof.
  assert (H1 : (0 <= surfaceMin defaultGray <= 255)%Q) by (cbn; lra).
  assert (H2 : (0 <= hiddenMax defaultGray <= 255)%Q) by (cbn; lra).
  assert (H3 : byteSamples (sample (solid 128) (solid 128) 0))
    by (repeat split; vm_compute; discriminate).
  split; [exact H1 |]. split; [exact H2 |].
  split; [reflexivity |]. split; [reflexivity |].
  apply (proj1 (warning_marks_clamping defaultGray H1 H2) eq_refl _ H3).
Defined.

(** X10.  For bounds in [0,255] and undithered pixels, alpha never exceeds
    [255 - (surfaceMin - hiddenMax)] in either mode: with the surface bound
    above the hidden bound no pixel of the result is fully opaque. *)
Theorem alpha_upper_bound (config : ProcessingConfig) (p : Samples) :
  (0 <= surfaceMin config <= 255)%Q -> (0 <= hiddenMax config <= 255)%Q ->
  byteSamples p ->
  (alpha (grayscaleMode config p)
   <= 255 - (surfaceMin config - hiddenMax config))%Q /\
  (finalAlpha (colorMode config p)
   <= 255 - (surfaceMin config - hiddenMax config))%Q.
Proof.
  intros Hs Hh Hp.
  destruct (mapped_values config p Hs Hh Hp)
    as (((_ & HlA) & (_ & HlB)) & ((Ar & Ag & Ab) & (Er & Ur) & (Eg & Ug) & (Eb & Ub))).
  split.
  - pose proof (gray_facts config p) as (_ & _ & _ & _ & Hbb & _).
    cbv zeta in Hbb.
    change (alpha (grayscaleMode config p)) with
      (255 - (lumA (grayscaleMode config p) - lumB (grayscaleMode config p)))%Q.
    lra.
  - destruct (color_facts config p) as (_ & _ & _ & (Cr & Cg & Cb) & Hfin & _).
    destruct (color_locals config p) as (_ & (Br & Bg & Bb)).
    assert (Vr : (rB' (colorMode config p) <= hiddenMax config)%Q).
    { rewrite Br. destruct (NumFacts.gtb_spec (Qmax 0 (Qmin 255 (rB p * scaleB config)))
                              (rA' (colorMode config p))); lra. }
    assert (Vg : (gB' (colorMode config p) <= hiddenMax config)%Q).
    { rewrite Bg. destruct (NumFacts.gtb_spec (Qmax 0 (Qmin 255 (gB p * scaleB config)))
                              (gA' (colorMode config p))); lra. }
    assert (Vb : (bB' (colorMode config p) <= hiddenMax config)%Q).
    { rewrite Bb. destruct (NumFacts.gtb_spec (Qmax 0 (Qmin 255 (bB p * scaleB config)))
                              (bA' (colorMode config p))); lra. }
    rewrite Hfin, Cr, Cg, Cb.
    apply Q.max_lub; [| apply Q.max_lub]; lra.
Qed.

Lemma alpha_upper_bound_witness :
  (0 <= surfaceMin defaultGray <= 255)%Q /\ (0 <= hiddenMax defaultGray <= 255)%Q /\
  byteSamples (sample (solid 128) (solid 128) 0) /\
  (alpha (grayscaleMode defaultGray (sample (solid 128) (solid 128) 0))
   <= 255 - (surfaceMin defaultGray - hiddenMax defaultGray))%Q.
Proof.
  assert (H1 : (0 <= surfaceMin defaultGray <= 255)%Q) by (cbn; lra).
  assert (H2 : (0 <= hiddenMax defaultGray <= 255)%Q) by (cbn; lra).
  assert (H3 : byteSamples (sample (solid 128) (solid 128) 0))
    by (repeat split; vm_compute; discriminate).
  split; [exact H1 |]. split; [exact H2 |]. split; [exact H3 |].
  apply (alpha_upper_bound defaultGray (sample (solid 128) (solid 128) 0) H1 H2 H3).
Defined.

(** ** Dithering *)

(** X11.  With a positive dithering strength a run makes exactly one call to the
    random source per output pixel, whatever the mode and the payload. *)
Theorem dithering_draws_once_per_pixel (config : ProcessingConfig) (w h : nat)
  (surfaceData hiddenData : list Z) (g : Rng) :
  (0 < dithering config)%Q ->
  snd (generateMirageTank config w h surfaceData hiddenData g)
  = {| draws := draws g; used := (used g + w * h)%nat |}.
Proof.
  intros Hpos.
  assert (Hon : Num.gtb (ditheringStrength config) 0 = true)
    by (apply NumFacts.gtb_true; unfold ditheringStrength; lra).
  pose proof (composite_draws config w h surfaceData hiddenData g) as Hd.
  unfold rngAt in Hd. rewrite Hon in Hd.
  unfold generateMirageTank.
  destruct (composite config w h surfaceData hiddenData g) as [resultData g'].
  cbn [snd] in Hd. subst g'.
  destruct (steganography config); reflexivity.
Qed.

Lemma dithering_draws_once_per_pixel_witness :
  (0 < dithering (withText {| surfaceMin := 160; hiddenMax := 100; grayscale := true;
                              dithering := 0.2; steganography := EmptyString;
                              width := None; height := None |} "hi"))%Q /\
  used (snd (generateMirageTank
               (withText {| surfaceMin := 160; hiddenMax := 100; grayscale := true;
                            dithering := 0.2; steganography := EmptyString;
                            width := None; height := None |} "hi")
               2 3 [] [] (constRng 0))) = 6%nat.
Proof.
  split; [reflexivity |].
  rewrite (dithering_draws_once_per_pixel
             (withText {| surfaceMin := 160; hiddenMax := 100; grayscale := true;
                          dithering := 0.2; steganography := EmptyString;
                          width := None; height := None |} "hi")
             2 3 [] [] (constRng 0) eq_refl).
  reflexivity.
Defined.

(** X12.  The noise of one pixel is the same for its six samples, so every
    difference between two samples is kept; when the draw lies in [0,1), as
    a call of [Math.random] does, and the strength is not negative, the
    noise is at most [5 * dithering] in absolute value. *)
Theorem dither_shifts_all_samples_alike
  (config : ProcessingConfig) (p : Samples) (g : Rng) :
  (0 <= dithering config)%Q -> (0 <= draws g (used g) < 1)%Q ->
  exists noise : Q,
    (- (5 * dithering config) <= noise <= 5 * dithering config)%Q /\
    (rA (fst (dither config p g)) == rA p + noise /\
     gA (fst (dither config p g)) == gA p + noise /\
     bA (fst (dither config p g)) == bA p + noise /\
     rB (fst (dither config p g)) == rB p + noise /\
     gB (fst (dither config p g)) == gB p + noise /\
     bB (fst (dither config p g)) == bB p + noise)%Q.
Proof.
  intros Hd [Hu0 Hu1]. unfold dither.
  destruct (NumFacts.gtb_spec (ditheringStrength config) 0) as [Hpos | Hneg].
  - cbn [random fst rA gA bA rB gB bB].
    exists ((draws g (used g) - 0.5) * ditheringStrength config)%Q.
    split; [| repeat split; reflexivity].
    unfold ditheringStrength in *.
    set (u := draws g (used g)) in *. set (s := dithering config) in *.
    assert (E : ((u - 0.5) * (s * 10) == 10 * (u * s) - 5 * s)%Q) by ring.
    assert (0 <= u * s)%Q by (apply Qmult_le_0_compat; assumption).
    assert (u * s <= 1 * s)%Q by (apply Qmult_le_compat_r; lra).
    rewrite E. lra.
  - exists 0%Q. cbn [fst]. split; [lra |]. repeat split; ring.
Qed.

Lemma dither_shifts_all_samples_alike_witness :
  (0 <= dithering defaultGray)%Q /\ (0 <= draws (constRng 0) (used (constRng 0)) < 1)%Q /\
  exists noise : Q,
    (- (5 * dithering defaultGray) <= noise <= 5 * dithering defaultGray)%Q /\
    (rA (fst (dither defaultGray (sample (solid 128) (solid 128) 0) (constRng 0)))
     == rA (sample (solid 128) (solid 128) 0) + noise)%Q.
Proof.
  assert (H1 : (0 <= dithering defaultGray)%Q) by (cbn; lra).
  assert (H2 : (0 <= draws (constRng 0) (used (constRng 0)) < 1)%Q) by (cbn; lra).
  split; [exact H1 |]. split; [exact H2 |].
  destruct (dither_shifts_all_samples_alike defaultGray
              (sample (solid 128) (solid 128) 0) (constRng 0) H1 H2)
    as (noise & Hb & Hr & _).
  exists noise. split; assumption.
Defined.

(** ** What the loop reads and what it leaves in the buffer *)

Section LoopReads.
Local Open Scope nat_scope.
Variable config : ProcessingConfig.

Lemma pixelLoop_ext (surfaceData hiddenData surfaceData' hiddenData' : list Z)
  (n : nat) :
  forall (i : nat) (st : list Z * Rng),
    (forall m, m < n ->
       sample surfaceData hiddenData (i + 4 * m)
       = sample surfaceData' hiddenData' (i + 4 * m)) ->
    pixelLoop config surfaceData hiddenData n i st
    = pixelLoop config surfaceData' hiddenData' n i st.
Proof.
  induction n as [| n IH]; intros i st Hs; [reflexivity |].
  cbn [pixelLoop].
  assert (E : pixelStep config surfaceData hiddenData i st
              = pixelStep config surfaceData' hiddenData' i st).
  { unfold pixelStep. destruct st as [out g].
    specialize (Hs 0 ltac:(lia)). rewrite Nat.add_0_r in Hs. now rewrite Hs. }
  rewrite E. apply IH.
  intros m Hm. specialize (Hs (S m) ltac:(lia)).
  replace (i + 4 + 4 * m) with (i + 4 * S m) by lia. exact Hs.
Qed.

(** After the loop every element of the result is a byte. *)
Lemma composite_bytes (w h : nat) (surfaceData hiddenData : list Z) (g : Rng) :
  bytes (fst (composite config w h surfaceData hiddenData g)).
Proof.
  unfold bytes. apply Forall_lookup. intros j x Hx.
  pose proof (composite_length config w h surfaceData hiddenData g) as Hlen.
  pose proof (lookup_lt_Some _ _ _ Hx) as Hj. rewrite Hlen in Hj.
  unfold composite in Hx.
  destruct (pixelLoop_spec config surfaceData hiddenData (w * h) 0
              (replicate (4 * (w * h)) 0%Z) g) as (_ & _ & _ & Hwritten).
  pose proof (Nat.div_mod_eq j 4) as Ej.
  pose proof (Nat.mod_upper_bound j 4 ltac:(lia)) as Hc.
  specialize (Hwritten (j / 4) (j mod 4)).
  rewrite length_replicate in Hwritten.
  replace (0 + 4 * (j / 4) + j mod 4) with j in Hwritten by lia.
  rewrite Hwritten in Hx by lia.
  injection Hx as <-. apply toUint8Clamp_range.
Qed.
End LoopReads.

(** X13.  The alpha bytes of the two sampled buffers play no part: two runs whose
    inputs agree on every red, green and blue byte give the same result. *)
Theorem input_alpha_is_ignored (config : ProcessingConfig) (w h : nat)
  (surfaceData hiddenData surfaceData' hiddenData' : list Z) (g : Rng) :
  (forall j : nat, (j mod 4 <> 3)%nat ->
     surfaceData !!! j = surfaceData' !!! j /\ hiddenData !!! j = hiddenData' !!! j) ->
  generateMirageTank config w h surfaceData hiddenData g
  = generateMirageTank config w h surfaceData' hiddenData' g.
Proof.
  intros Hagree. unfold generateMirageTank, composite.
  rewrite (pixelLoop_ext config surfaceData hiddenData surfaceData' hiddenData');
    [reflexivity |].
  intros m _. cbn [Nat.add]. unfold sample.
  assert (H0 : ((4 * m) mod 4 <> 3)%nat)
    by (rewrite Nat.mul_comm, Nat.Div0.mod_mul; lia).
  assert (H1 : ((4 * m + 1) mod 4 <> 3)%nat)
    by (rewrite Nat.add_comm, Nat.mul_comm, Nat.Div0.mod_add; cbn; lia).
  assert (H2 : ((4 * m + 2) mod 4 <> 3)%nat)
    by (rewrite Nat.add_comm, Nat.mul_comm, Nat.Div0.mod_add; cbn; lia).
  destruct (Hagree _ H0) as [-> ->], (Hagree _ H1) as [-> ->],
           (Hagree _ H2) as [-> ->].
  reflexivity.
Qed.

Lemma input_alpha_is_ignored_witness :
  fst (generateMirageTank defaultGray 1 1 [10; 20; 30; 255] [40; 50; 60; 255] (constRng 0))
  = fst (generateMirageTank defaultGray 1 1 [10; 20; 30; 0] [40; 50; 60; 7] (constRng 0)).
Proof.
  rewrite (input_alpha_is_ignored defaultGray 1 1
             [10; 20; 30; 255] [40; 50; 60; 255] [10; 20; 30; 0] [40; 50; 60; 7]
             (constRng 0)); [reflexivity |].
  intros [| [| [| [| j]]]] Hj; try (split; reflexivity).
  exfalso. apply Hj. reflexivity.
Defined.

(** ** The payload in the buffer *)

Section BytePerByte.
Local Open Scope Z_scope.

Lemma disjoint_masks (x y : Z) : Z.land (Z.land x 0xFE) (Z.land y 1) = 0.
Proof.
  rewrite (Z.land_comm y 1), Z.land_assoc, <- (Z.land_assoc x 0xFE 1).
  change (Z.land 0xFE 1) with 0. now rewrite Z.land_0_r, Z.land_0_l.
Qed.

Lemma withLowBit_sum (b x : Z) : withLowBit b x = Z.land x 0xFE + Z.land b 1.
Proof.
  unfold withLowBit.
  rewrite <- Z.lxor_lor, <- Z.add_nocarry_lxor by apply disjoint_masks.
  reflexivity.
Qed.

Lemma byte_sum (x : Z) : 0 <= x <= 255 -> x = Z.land x 0xFE + Z.land x 1.
Proof.
  intros Hx.
  rewrite <- withLowBit_sum. unfold withLowBit.
  rewrite <- Z.land_lor_distr_r. change (Z.lor 0xFE 1) with (Z.ones 8).
  rewrite Z.land_ones by lia. symmetry. apply Z.mod_small. lia.
Qed.

(** Writing a bit moves a byte by at most one. *)
Lemma withLowBit_near (b x : Z) :
  0 <= x <= 255 -> Z.abs (withLowBit b x - x) <= 1.
Proof.
  intros Hx. rewrite withLowBit_sum. rewrite (byte_sum x Hx) at 2.
  rewrite !bit_mod2.
  pose proof (Z.mod_pos_bound b 2). pose proof (Z.mod_pos_bound x 2). lia.
Qed.

(** Writing the same low bit twice, or over another written bit, gives the
    byte of the last write. *)
Lemma withLowBit_twice (b b' x : Z) :
  withLowBit b (withLowBit b' x) = withLowBit b x.
Proof.
  unfold withLowBit at 1 3. f_equal. apply written_high_bits.
Qed.
End BytePerByte.

Section PayloadFacts.
Local Open Scope nat_scope.
Variable data : list Z.
Variable text : string.
Hypothesis text_nonempty : text <> EmptyString.

(** [embedSteganography], byte by byte. *)
Lemma embed_lookup (j : nat) :
  embedSteganography data text !! j
  = match carried data (bitStream text) j with
    | Some b => withLowBit b <$> data !! j
    | None => data !! j
    end.
Proof using text_nonempty.
  unfold carried. cbv zeta.
  set (i := j / 4 * 3 + j mod 4).
  destruct (Nat.ltb_spec (j mod 4) 3) as [Hc | Hc]; cbn [andb].
  - destruct (Nat.ltb_spec (4 * i) (3 * length data)) as [Hfit | Hfull].
    + destruct (bitStream text !! i) as [b |] eqn:Hb.
      * assert (Ej : j = carrierIndex i).
        { unfold carrierIndex, i.
          pose proof (Nat.div_mod_eq j 4).
          replace ((j / 4 * 3 + j mod 4) / 3) with (j / 4)
            by (rewrite Nat.div_add_l by lia;
                rewrite (Nat.div_small (j mod 4) 3) by lia; lia).
          replace ((j / 4 * 3 + j mod 4) mod 3) with (j mod 4)
            by (rewrite Nat.add_comm, Nat.Div0.mod_add;
                symmetry; apply Nat.mod_small; lia).
          lia. }
        destruct (embed_spec data text text_nonempty) as (Hlen & Hw & _).
        pose proof (carrierIndex_in_buffer data i Hfit) as Hin.
        rewrite <- Ej in Hin.
        specialize (Hw i b Hb Hfit). rewrite <- Ej in Hw.
        rewrite (list_lookup_lookup_total_lt data j Hin).
        cbn [fmap option_fmap option_map]. unfold withLowBit.
        rewrite <- Hw. apply list_lookup_lookup_total_lt. now rewrite Hlen.
      * apply (embed_untouched data text text_nonempty).
        right. right. fold i. now apply lookup_ge_None.
    + apply (embed_untouched data text text_nonempty).
      right. left. fold i. unfold fits. lia.
  - apply (embed_untouched data text text_nonempty).
    left. pose proof (Nat.mod_upper_bound j 4 ltac:(lia)). lia.
Qed.

Lemma embed_keeps_bytes : bytes data -> bytes (embedSteganography data text).
Proof using text_nonempty.
  unfold bytes. rewrite !Forall_lookup. intros Hd j x.
  rewrite embed_lookup.
  destruct (carried data (bitStream text) j) as [b |]; [| apply Hd].
  destruct (data !! j) as [y |]; [| discriminate].
  cbn. intros [= <-]. apply written_is_byte.
Qed.

Lemma embed_near (j : nat) :
  bytes data ->
  (Z.abs (embedSteganography data text !!! j - data !!! j) <= 1)%Z.
Proof using text_nonempty.
  intros Hd. rewrite !list_lookup_total_alt, embed_lookup.
  destruct (carried data (bitStream text) j) as [b |]; [| lia].
  destruct (data !! j) as [y |] eqn:Hy; cbn; [| lia].
  apply withLowBit_near.
  unfold bytes in Hd. rewrite Forall_lookup in Hd. apply (Hd j y Hy).
Qed.
End PayloadFacts.

(** X14.  The result of a run is a buffer of [4 * width * height] bytes, with or
    without a payload. *)
Theorem output_is_a_byte_buffer (config : ProcessingConfig) (w h : nat)
  (surfaceData hiddenData : list Z) (g : Rng) :
  length (fst (generateMirageTank config w h surfaceData hiddenData g))
  = (4 * (w * h))%nat /\
  bytes (fst (generateMirageTank config w h surfaceData hiddenData g)).
Proof.
  pose proof (composite_length config w h surfaceData hiddenData g) as Hlen.
  pose proof (composite_bytes config w h surfaceData hiddenData g) as Hb.
  unfold generateMirageTank.
  destruct (composite config w h surfaceData hiddenData g) as [resultData g'].
  cbn [fst] in Hlen, Hb.
  destruct (steganography config) as [| c text] eqn:Et; cbn [fst].
  - split; assumption.
  - split.
    + rewrite embed_length by discriminate. exact Hlen.
    + apply embed_keeps_bytes; [discriminate | exact Hb].
Qed.


(** ** The payload and the pixel loop *)

Section PayloadIndependence.
Variable config : ProcessingConfig.
Variable text : string.

Lemma scales_withText :
  scaleA (withText config text) = scaleA config /\
  offsetA (withText config text) = offsetA config /\
  scaleB (withText config text) = scaleB config /\
  ditheringStrength (withText config text) = ditheringStrength config.
Proof. repeat split. Qed.

Lemma pixelStep_withText (surfaceData hiddenData : list Z) (i : nat)
  (st : list Z * Rng) :
  pixelStep (withText config text) surfaceData hiddenData i st
  = pixelStep config surfaceData hiddenData i st.
Proof.
  destruct scales_withText as (EsA & EoA & EsB & Ed).
  unfold pixelStep, dither, pixelValues, grayscaleMode, colorMode.
  rewrite EsA, EoA, EsB, Ed. reflexivity.
Qed.

(** The pixel loop does not look at the payload. *)
Lemma composite_withText (w h : nat) (surfaceData hiddenData : list Z) (g : Rng) :
  composite (withText config text) w h surfaceData hiddenData g
  = composite config w h surfaceData hiddenData g.
Proof.
  unfold composite.
  generalize (replicate (4 * (w * h)) 0%Z, g). generalize 0%nat.
  induction (w * h)%nat as [| n IH]; intros i st; [reflexivity |].
  cbn [pixelLoop]. now rewrite IH, pixelStep_withText.
Qed.
End PayloadIndependence.

(** X15.  A payload is nearly invisible: compared with the run without payload,
    the run with a payload makes the same draws, leaves every alpha byte and
    every byte after the last carrier as it is, and moves no byte by more
    than one. *)
Theorem payload_is_nearly_invisible (config : ProcessingConfig) (text : string)
  (w h : nat) (surfaceData hiddenData : list Z) (g : Rng) :
  let plain := generateMirageTank (withText config EmptyString) w h
                 surfaceData hiddenData g in
  let marked := generateMirageTank (withText config text) w h
                  surfaceData hiddenData g in
  snd marked = snd plain /\
  length (fst marked) = length (fst plain) /\
  (forall j : nat, Z.abs (fst marked !!! j - fst plain !!! j) <= 1) /\
  (forall j : nat,
     (j mod 4 = 3 \/ 32 + 8 * length (encode text) <= j / 4 * 3 + j mod 4)%nat ->
     fst marked !! j = fst plain !! j).
Proof.
  cbv zeta. unfold generateMirageTank.
  rewrite !composite_withText.
  pose proof (composite_bytes config w h surfaceData hiddenData g) as Hb.
  destruct (composite config w h surfaceData hiddenData g) as [resultData g'].
  cbn [fst] in Hb. cbn [steganography withText fst snd].
  destruct text as [| c text]; cbn [fst snd].
  - split; [reflexivity |]. split; [reflexivity |].
    split; [| reflexivity].
    intros j. rewrite Z.sub_diag. cbn. lia.
  - assert (Hne : String c text <> EmptyString) by discriminate.
    split; [reflexivity |].
    split; [apply (embed_length _ _ Hne) |].
    split; [intros j; apply (embed_near _ _ Hne j Hb) |].
    intros j Hj. apply (embed_untouched _ _ Hne).
    destruct Hj as [Hj | Hj]; [now left |].
    right. right. now rewrite bitStream_length.
Qed.

(** X16.  A later payload that is at least as long as an earlier one replaces it
    entirely: embedding both in turn gives the buffer that the later one
    alone gives.  In particular embedding the same payload twice changes
    nothing more. *)
Theorem later_payload_overwrites (data : list Z) (text1 text2 : string) :
  text1 <> EmptyString -> text2 <> EmptyString ->
  (length (encode text1) <= length (encode text2))%nat ->
  embedSteganography (embedSteganography data text1) text2
  = embedSteganography data text2.
Proof.
  intros Hne1 Hne2 Hlen.
  apply list_eq. intros j.
  rewrite (embed_lookup _ text2 Hne2 j), (embed_lookup data text2 Hne2 j).
  rewrite (embed_lookup data text1 Hne1 j).
  unfold carried. cbv zeta. rewrite (embed_length data text1 Hne1).
  destruct ((j mod 4 <? 3)%nat && (4 * (j / 4 * 3 + j mod 4) <? 3 * length data)%nat).
  - destruct (bitStream text2 !! (j / 4 * 3 + j mod 4)%nat) as [b |] eqn:H2.
    + destruct (bitStream text1 !! (j / 4 * 3 + j mod 4)%nat) as [b' |];
        [| reflexivity].
      destruct (data !! j) as [x |]; [| reflexivity].
      cbn [fmap option_fmap option_map]. f_equal. apply withLowBit_twice.
    + apply lookup_ge_None in H2. rewrite bitStream_length in H2.
      assert (H1 : bitStream text1 !! (j / 4 * 3 + j mod 4)%nat = None)
        by (apply lookup_ge_None; rewrite bitStream_length; lia).
      now rewrite H1.
  - reflexivity.
Qed.

Lemma later_payload_overwrites_witness :
  "hi"%string <> EmptyString /\ "yo!"%string <> EmptyString /\
  (length (encode "hi") <= length (encode "yo!"))%nat /\
  embedSteganography (embedSteganography (replicate 80 200) "hi") "yo!"
  = embedSteganography (replicate 80 200) "yo!".
Proof.
  assert (H1 : "hi"%string <> EmptyString) by discriminate.
  assert (H2 : "yo!"%string <> EmptyString) by discriminate.
  assert (H3 : (length (encode "hi") <= length (encode "yo!"))%nat) by (cbn; lia).
  split; [exact H1 |]. split; [exact H2 |]. split; [exact H3 |].
  apply (later_payload_overwrites (replicate 80 200) "hi" "yo!" H1 H2 H3).
Defined.

(** X17.  The payload of a run can be read back from its result: when the
    [32 + 8 * length] bits fit in the [3 * width * height] carriers, the
    extraction of section 4.4 applied to the result gives the length and
    the bytes of the payload, in every mode and with or without
    dithering. *)
Theorem run_round_trip (config : ProcessingConfig) (text : string) (w h : nat)
  (surfaceData hiddenData : list Z) (g : Rng) :
  text <> EmptyString ->
  (32 + 8 * length (encode text) <= 3 * (w * h))%nat ->
  Z.of_nat (length (encode text)) < 2 ^ 32 ->
  extract (fst (generateMirageTank (withText config text) w h
                  surfaceData hiddenData g))
  = (Z.of_nat (length (encode text)), encode text).
Proof.
  intros Hne Hcap Hlen.
  pose proof (composite_length config w h surfaceData hiddenData g) as Hl.
  unfold generateMirageTank. rewrite composite_withText.
  destruct (composite config w h surfaceData hiddenData g) as [resultData g'].
  cbn [fst] in Hl. cbn [steganography withText].
  destruct text as [| c text]; [contradiction |]. cbn [fst].
  apply (extract_embed resultData (String c text) Hne); [| exact Hlen].
  rewrite Hl. lia.
Qed.

Lemma run_round_trip_witness :
  "hi"%string <> EmptyString /\
  (32 + 8 * length (encode "hi") <= 3 * (4 * 4))%nat /\
  Z.of_nat (length (encode "hi")) < 2 ^ 32 /\
  extract (fst (generateMirageTank (withText defaultGray "hi") 4 4 [] [] (constRng 0)))
  = (2, [0x68; 0x69]).
Proof.
  assert (H1 : "hi"%string <> EmptyString) by discriminate.
  assert (H2 : (32 + 8 * length (encode "hi") <= 3 * (4 * 4))%nat) by (cbn; lia).
  assert (H3 : Z.of_nat (length (encode "hi")) < 2 ^ 32) by reflexivity.
  split; [exact H1 |]. split; [exact H2 |]. split; [exact H3 |].
  apply (run_round_trip defaultGray "hi" 4 4 [] [] (constRng 0) H1 H2 H3).
Defined.

(** X18.  A payload cut short by the capacity keeps what fits: as soon as the 32
    header bits fit (11 pixels), the extracted length is the length of the
    payload, and every byte whose 8 bits all fit is extracted at its
    position. *)
Theorem truncated_payload_keeps_its_prefix (data : list Z) (text : string) :
  text <> EmptyString ->
  fits data 31 ->
  Z.of_nat (length (encode text)) < 2 ^ 32 ->
  fst (extract (embedSteganography data text)) = Z.of_nat (length (encode text)) /\
  (forall (k : nat) (b : Z),
     encode text !! k = Some b -> fits data (32 + 8 * k + 7) ->
     snd (extract (embedSteganography data text)) !! k = Some b).
Proof.
  intros Hne Hfit Hlen. unfold fits in Hfit.
  assert (Hheader : readBits (embedSteganography data text) 0 32
                    = Z.of_nat (length (encode text))).
  { rewrite (readBits_value _ 32 0 (Z.of_nat (length (encode text)))).
    - apply Z.mod_small. change (Z.of_nat 32) with 32. lia.
    - intros j Hj. cbn [Nat.add].
      rewrite (embed_readBit data text Hne j _ (bitStream_header text j Hj))
        by (unfold fits; lia).
      rewrite <- Z.land_assoc. reflexivity. }
  unfold extract. cbv zeta. cbn [fst snd]. rewrite Hheader, Nat2Z.id.
  split; [reflexivity |].
  intros k b Hb Hk. unfold fits in Hk.
  pose proof (lookup_lt_Some _ _ _ Hb) as Hlt.
  change (map ?f ?l) with (f <$> l).
  rewrite list_lookup_fmap, lookup_seq_lt by assumption.
  cbn [fmap option_fmap option_map Nat.add]. f_equal.
  rewrite (readBits_value _ 8 (32 + 8 * k) b).
  - apply Z.mod_small. pose proof (encode_byte text k b Hb).
    change (2 ^ Z.of_nat 8) with 256. lia.
  - intros j Hj.
    rewrite (embed_readBit data text Hne _ _ (bitStream_payload text k j b Hb Hj))
      by (unfold fits; lia).
    rewrite <- Z.land_assoc. reflexivity.
Qed.

Lemma truncated_payload_keeps_its_prefix_witness :
  "hello"%string <> EmptyString /\ fits (replicate 56 0) 31 /\
  Z.of_nat (length (encode "hello")) < 2 ^ 32 /\
  fst (extract (embedSteganography (replicate 56 0) "hello")) = 5.
Proof.
  assert (H1 : "hello"%string <> EmptyString) by discriminate.
  assert (H2 : fits (replicate 56 0) 31) by (unfold fits; cbn; lia).
  assert (H3 : Z.of_nat (length (encode "hello")) < 2 ^ 32) by reflexivity.
  split; [exact H1 |]. split; [exact H2 |]. split; [exact H3 |].
  apply (truncated_payload_keeps_its_prefix (replicate 56 0) "hello" H1 H2 H3).
Defined.

(** ** The two modes on gray pixels *)

Section Congruence.
Import Num NumFacts.
Local Open Scope Q_scope.





End Congruence.




Lemma payload_is_nearly_invisible_witness :
  (3 mod 4 = 3)%nat /\
  fst (generateMirageTank (withText defaultGray "hi") 4 4 [] [] (constRng 0)) !! 3%nat
  = fst (generateMirageTank (withText defaultGray EmptyString) 4 4 [] [] (constRng 0))
      !! 3%nat.
Proof.
  split; [reflexivity |].
  destruct (payload_is_nearly_invisible defaultGray "hi" 4 4 [] [] (constRng 0))
    as (_ & _ & _ & H).
  apply H. left. reflexivity.
Defined.
